(** * gjalla-cli: classification, directory creation, requirements aggregation

    A shallow embedding of the Python sources of the repository and the
    properties its specification states about them.

    Conventions of the embedding.
    - Python [str] values are [string]s over ASCII; [str.lower], [str.strip],
      [str.split] and the [re] character classes are given for the ASCII
      range (the whitespace of [str.isspace] below 128 is 9-13, 28-31, 32).
    - [pathlib.Path] is a record of the absolute flag and the components.
    - Python floats that only ever hold short decimals (scores, confidences,
      the similarity threshold) are kept as exact fractions: tenths or
      hundredths as integers, ratios compared by cross-multiplication.
    - The filesystem is a finite map from absolute component lists to nodes. *)

From Stdlib Require Import String Ascii List Bool Arith Lia QArith DecimalString
  Sorted.
From stdpp Require Import base option list gmap strings fin_maps.

Set Warnings "-clear-no-such-hyp,-register-all".

Local Open Scope string_scope.
Local Open Scope list_scope.
Local Open Scope nat_scope.

(** ** Python string primitives *)
Module Text.

(** [str.isspace] on one ASCII character. *)
Definition isspace (c : ascii) : bool :=
  let n := nat_of_ascii c in
  ((9 <=? n) && (n <=? 13)) || ((28 <=? n) && (n <=? 32)).

Definition isupper (c : ascii) : bool :=
  let n := nat_of_ascii c in (65 <=? n) && (n <=? 90).

Definition islower (c : ascii) : bool :=
  let n := nat_of_ascii c in (97 <=? n) && (n <=? 122).

Definition isdigit (c : ascii) : bool :=
  let n := nat_of_ascii c in (48 <=? n) && (n <=? 57).

(** The class [\w] of [re]: letters, digits and the underscore. *)
Definition isword (c : ascii) : bool :=
  isupper c || islower c || isdigit c || (nat_of_ascii c =? 95).

Definition lower_char (c : ascii) : ascii :=
  if isupper c then ascii_of_nat (nat_of_ascii c + 32) else c.

(** [s.lower()] *)
Fixpoint lower (s : string) : string :=
  match s with
  | EmptyString => EmptyString
  | String c s' => String (lower_char c) (lower s')
  end.

(** [s.lstrip()] *)
Fixpoint lstrip (s : string) : string :=
  match s with
  | EmptyString => EmptyString
  | String c s' => if isspace c then lstrip s' else s
  end.

(** [s.rstrip()]: a character is dropped when it is a space and everything
    after it has been dropped. *)
Fixpoint rstrip (s : string) : string :=
  match s with
  | EmptyString => EmptyString
  | String c s' =>
      match rstrip s' with
      | EmptyString => if isspace c then EmptyString else String c EmptyString
      | t => String c t
      end
  end.

(** [s.strip()] *)
Definition strip (s : string) : string := rstrip (lstrip s).

(** [s.split(sep)] for a one-character separator: never the empty list. *)
Fixpoint split (sep : ascii) (s : string) : list string :=
  match s with
  | EmptyString => [EmptyString]
  | String c s' =>
      if Ascii.eqb c sep then EmptyString :: split sep s'
      else match split sep s' with
           | [] => [String c EmptyString]
           | w :: ws => String c w :: ws
           end
  end.

(** [s.split()]: the maximal runs of non-space characters. *)
Fixpoint split_ws_go (cur : string) (s : string) : list string :=
  match s with
  | EmptyString =>
      match cur with EmptyString => [] | _ => [String.rev cur] end
  | String c s' =>
      if isspace c
      then match cur with
           | EmptyString => split_ws_go EmptyString s'
           | _ => String.rev cur :: split_ws_go EmptyString s'
           end
      else split_ws_go (String c cur) s'
  end.

Definition split_ws (s : string) : list string := split_ws_go EmptyString s.

(** [re.sub(r'\s+', ' ', s)] *)
Fixpoint collapse_ws_go (in_run : bool) (s : string) : string :=
  match s with
  | EmptyString => EmptyString
  | String c s' =>
      if isspace c
      then if in_run then collapse_ws_go true s'
           else String " " (collapse_ws_go true s')
      else String c (collapse_ws_go false s')
  end.

Definition collapse_ws (s : string) : string := collapse_ws_go false s.

(** [re.sub(r'[^\w\s]', '', s)] *)
Fixpoint drop_punct (s : string) : string :=
  match s with
  | EmptyString => EmptyString
  | String c s' =>
      if isword c || isspace c then String c (drop_punct s') else drop_punct s'
  end.

(** [needle in hay] *)
Fixpoint contains (needle hay : string) : bool :=
  if String.prefix needle hay then true
  else match hay with
       | EmptyString => false
       | String _ hay' => contains needle hay'
       end.

(** [str(n)] for a non-negative integer. *)
Definition string_of_nat (n : nat) : string :=
  NilZero.string_of_uint (Nat.to_uint n).

(** [sep.join(parts)] *)
Fixpoint join (sep : string) (parts : list string) : string :=
  match parts with
  | [] => EmptyString
  | [p] => p
  | p :: ps => p +:+ sep +:+ join sep ps
  end.

(** [s[:n]] *)
Fixpoint take (n : nat) (s : string) : string :=
  match n, s with
  | S n', String c s' => String c (take n' s')
  | _, _ => EmptyString
  end.

End Text.

(** ** pathlib *)
Module Pathlib.

Record Path := { is_absolute : bool; parts : list string }.

Global Instance Path_eq_dec : EqDecision Path.
Proof. solve_decision. Defined.

(** [Path("a/b")] *)
Definition rel (components : list string) : Path :=
  {| is_absolute := false; parts := components |}.

(** [p.name]: the last component, [''] when there is none. *)
Definition name (p : Path) : string := List.last (parts p) "".

(** [a / b]: an absolute right operand replaces the left one. *)
Definition joinpath (a b : Path) : Path :=
  if is_absolute b then b
  else {| is_absolute := is_absolute a; parts := parts a ++ parts b |}.

(** [str(p)] *)
Definition to_string (p : Path) : string :=
  if is_absolute p then "/" +:+ Text.join "/" (parts p)
  else match parts p with
       | [] => "."
       | _ => Text.join "/" (parts p)
       end.

End Pathlib.

(** ** The fragment of [re] the aggregator's patterns use

    A pattern is only ever asked whether [search] finds a match, so lazy and
    greedy quantifiers coincide and groups need no capture. *)
Module Regex.

Inductive charclass :=
  | Dot            (** [.] under [re.DOTALL] *)
  | DotNoNewline   (** [.] without [re.DOTALL] *)
  | Space.         (** [\s] *)

Inductive regex :=
  | Lit (s : string)        (** literal text, compared under [re.IGNORECASE] *)
  | Class (c : charclass)
  | Cat (r1 r2 : regex)
  | Alt (r1 r2 : regex)
  | Opt (r : regex)         (** [r?] *)
  | Plus (r : regex)        (** [r+] and [r+?] *)
  | Eol.                    (** [$] *)

Definition class_accepts (c : charclass) (a : ascii) : bool :=
  match c with
  | Dot => true
  | DotNoNewline => negb (Ascii.eqb a "010")
  | Space => Text.isspace a
  end.

(** Consume the literal [lit] from the front of [s], ignoring case. *)
Fixpoint eat (lit s : string) : option string :=
  match lit, s with
  | EmptyString, _ => Some s
  | String a lit', String b s' =>
      if Ascii.eqb (Text.lower_char a) (Text.lower_char b) then eat lit' s'
      else None
  | String _ _, EmptyString => None
  end.

(** [run r s k]: some prefix of [s] matches [r] and the rest satisfies [k].
    An iteration of [Plus] that consumes nothing is not repeated. *)
Fixpoint run (r : regex) (s : string) (k : string -> bool) : bool :=
  match r with
  | Lit lit => match eat lit s with Some s' => k s' | None => false end
  | Class c =>
      match s with
      | String a s' => if class_accepts c a then k s' else false
      | EmptyString => false
      end
  | Cat r1 r2 => run r1 s (fun s' => run r2 s' k)
  | Alt r1 r2 => if run r1 s k then true else run r2 s k
  | Opt r1 => if run r1 s k then true else k s
  | Plus r1 =>
      (fix iterate (fuel : nat) (s : string) {struct fuel} : bool :=
         match fuel with
         | O => false
         | S fuel' =>
             run r1 s (fun s' =>
               if k s' then true
               else if String.length s' <? String.length s
                    then iterate fuel' s' else false)
         end) (S (String.length s)) s
  | Eol =>
      match s with
      | EmptyString => k s
      | String "010" EmptyString => k s
      | _ => false
      end
  end.

(** [pattern.match(s) is not None] *)
Definition match_here (r : regex) (s : string) : bool := run r s (fun _ => true).

(** [pattern.search(s) is not None]: a match starting at some position. *)
Fixpoint search (r : regex) (s : string) : bool :=
  if match_here r s then true
  else match s with
       | EmptyString => false
       | String _ s' => search r s'
       end.

Fixpoint seq (rs : list regex) : regex :=
  match rs with
  | [] => Lit ""
  | [r] => r
  | r :: rs' => Cat r (seq rs')
  end.

Fixpoint alts (rs : list regex) : regex :=
  match rs with
  | [] => Lit ""
  | [r] => r
  | r :: rs' => Alt r (alts rs')
  end.

End Regex.

(** ** RequirementsAggregator
    (tests_and_validations/test_requirements_aggregator_simple.py) *)
Module RequirementsAggregator.
Import Pathlib Regex.

Inductive RequirementType := EARS | GENERAL | USER_STORY.

Global Instance RequirementType_eq_dec : EqDecision RequirementType.
Proof. solve_decision. Defined.

(** [confidence] holds 0.9, 0.7 or 0.8 in the source; it is kept in
    hundredths.  [extraction_timestamp] (the wall clock at construction) is
    read by none of the functions below and is left out. *)
Record ExtractedRequirement := {
  text : string;
  source_file : Path;
  line_number : nat;
  requirement_type : RequirementType;
  confidence : nat;
  context : string
}.

Global Instance ExtractedRequirement_eq_dec : EqDecision ExtractedRequirement.
Proof. solve_decision. Defined.

(** [\s+], [(.+?)] with and without [re.DOTALL], and [(?:\.|$)]. *)
Definition ws : regex := Plus (Class Space).
Definition some_text : regex := Plus (Class Dot).
Definition some_text_line : regex := Plus (Class DotNoNewline).
Definition stop : regex := Alt (Lit ".") Eol.

Definition _ears_patterns : list regex := [
  (* WHEN\s+(.+?)\s+THEN\s+(.+?)\s+SHALL\s+(.+?)(?:\.|$) *)
  seq [Lit "WHEN"; ws; some_text; ws; Lit "THEN"; ws; some_text; ws;
       Lit "SHALL"; ws; some_text; stop];
  (* IF\s+(.+?)\s+THEN\s+(.+?)\s+SHALL\s+(.+?)(?:\.|$) *)
  seq [Lit "IF"; ws; some_text; ws; Lit "THEN"; ws; some_text; ws;
       Lit "SHALL"; ws; some_text; stop];
  (* GIVEN\s+(.+?)\s+WHEN\s+(.+?)\s+THEN\s+(.+?)(?:\.|$) *)
  seq [Lit "GIVEN"; ws; some_text; ws; Lit "WHEN"; ws; some_text; ws;
       Lit "THEN"; ws; some_text; stop]
].

Definition modal : regex :=
  alts [Lit "must"; Lit "shall"; Lit "should"; Lit "will"].

Definition _general_requirement_patterns : list regex := [
  (* (?:system|application|feature|component|user)\s+(?:must|shall|should|will)\s+(.+?)(?:\.|$) *)
  seq [alts [Lit "system"; Lit "application"; Lit "feature"; Lit "component";
             Lit "user"]; ws; modal; ws; some_text_line; stop];
  (* (?:must|shall|should|will)\s+(?:be able to|support|provide|allow|enable)\s+(.+?)(?:\.|$) *)
  seq [modal; ws;
       alts [Lit "be able to"; Lit "support"; Lit "provide"; Lit "allow";
             Lit "enable"]; ws; some_text_line; stop];
  (* (?:it|this)\s+(?:must|shall|should|will)\s+(.+?)(?:\.|$) *)
  seq [alts [Lit "it"; Lit "this"]; ws; modal; ws; some_text_line; stop]
].

Definition _user_story_patterns : list regex := [
  (* As\s+a\s+(.+?),?\s+I\s+want\s+(.+?),?\s+so\s+that\s+(.+?)(?:\.|$) *)
  seq [Lit "As"; ws; Lit "a"; ws; some_text; Opt (Lit ","); ws; Lit "I"; ws;
       Lit "want"; ws; some_text; Opt (Lit ","); ws; Lit "so"; ws; Lit "that";
       ws; some_text; stop];
  (* As\s+an?\s+(.+?),?\s+I\s+need\s+(.+?)\s+to\s+(.+?)(?:\.|$) *)
  seq [Lit "As"; ws; Lit "a"; Opt (Lit "n"); ws; some_text; Opt (Lit ","); ws;
       Lit "I"; ws; Lit "need"; ws; some_text; ws; Lit "to"; ws; some_text;
       stop]
].

(** [_get_context(line, max_length)] *)
Definition _get_context (line : string) (max_length : nat) : string :=
  if String.length line <=? max_length then line
  else Text.take (max_length - 3) line +:+ "...".

(** [for pattern in patterns: if pattern.search(line): return found] and
    [return None] after the loop. *)
Fixpoint first_hit {A} (patterns : list regex) (line : string) (found : A)
  : option A :=
  match patterns with
  | [] => None
  | pattern :: rest =>
      if search pattern line then Some found else first_hit rest line found
  end.

Definition _extract_ears_requirement (line : string) (file_path : Path)
    (line_num : nat) : option ExtractedRequirement :=
  first_hit _ears_patterns line
    {| text := Text.strip line; source_file := file_path;
       line_number := line_num; requirement_type := EARS; confidence := 90;
       context := _get_context line 50 |}.

Definition _extract_general_requirement (line : string) (file_path : Path)
    (line_num : nat) : option ExtractedRequirement :=
  first_hit _general_requirement_patterns line
    {| text := Text.strip line; source_file := file_path;
       line_number := line_num; requirement_type := GENERAL; confidence := 70;
       context := _get_context line 50 |}.

Definition _extract_user_story (line : string) (file_path : Path)
    (line_num : nat) : option ExtractedRequirement :=
  first_hit _user_story_patterns line
    {| text := Text.strip line; source_file := file_path;
       line_number := line_num; requirement_type := USER_STORY;
       confidence := 80; context := _get_context line 50 |}.

(** [enumerate(xs, start)] *)
Fixpoint enumerate {A} (start : nat) (xs : list A) : list (nat * A) :=
  match xs with
  | [] => []
  | x :: xs' => (start, x) :: enumerate (S start) xs'
  end.

(** One turn of the loop of [extract_requirements]; [requirements] is the
    list being appended to. *)
Definition extract_line (file_path : Path)
    (requirements : list ExtractedRequirement) (item : nat * string)
  : list ExtractedRequirement :=
  let line_num := fst item in
  let line := Text.strip (snd item) in
  if decide (line = "") then requirements
  else
    match _extract_ears_requirement line file_path line_num with
    | Some ears_req => requirements ++ [ears_req]
    | None =>
        match _extract_general_requirement line file_path line_num with
        | Some general_req => requirements ++ [general_req]
        | None =>
            match _extract_user_story line file_path line_num with
            | Some user_story => requirements ++ [user_story]
            | None => requirements
            end
        end
    end.

Definition extract_requirements (content : string) (file_path : Path)
  : list ExtractedRequirement :=
  let lines := Text.split "010" content in
  fold_left (extract_line file_path) (enumerate 1 lines) [].

(** [_normalize_text] *)
Definition _normalize_text (t : string) : string :=
  Text.drop_punct (Text.collapse_ws (Text.strip (Text.lower t))).

(** [set(norm.split())] *)
Definition word_set (norm : string) : gset string :=
  list_to_set (Text.split_ws norm).

(** [intersection / union if union > 0 else 0.0] *)
Definition similarity (words1 words2 : gset string) : Q :=
  let intersection := size (words1 ∩ words2) in
  let union := size (words1 ∪ words2) in
  if 0 <? union then (Z.of_nat intersection # Pos.of_nat union)%Q else 0%Q.

Definition default_threshold : Q := (8 # 10)%Q.

(** [_are_similar(text1, text2, threshold)] *)
Definition _are_similar (text1 text2 : string) (threshold : Q) : bool :=
  let words1 := word_set (_normalize_text text1) in
  let words2 := word_set (_normalize_text text2) in
  if bool_decide (words1 = ∅) || bool_decide (words2 = ∅) then false
  else Qle_bool threshold (similarity words1 words2).

(** One turn of the loop of [deduplicate_requirements] over the pair
    [(unique_requirements, seen_texts)]. *)
Definition dedup_step (st : list ExtractedRequirement * gset string)
    (req : ExtractedRequirement) : list ExtractedRequirement * gset string :=
  let unique_requirements := fst st in
  let seen_texts := snd st in
  let normalized_text := _normalize_text (text req) in
  if decide (normalized_text ∈ seen_texts) then st
  else
    let is_similar :=
      existsb (fun existing_req =>
                 _are_similar (text req) (text existing_req) default_threshold)
              unique_requirements in
    if is_similar then st
    else (unique_requirements ++ [req], seen_texts ∪ {[normalized_text]}).

Definition deduplicate_requirements (requirements : list ExtractedRequirement)
  : list ExtractedRequirement :=
  match requirements with
  | [] => []
  | _ => fst (fold_left dedup_step requirements ([], ∅))
  end.

(** [f"{c:.2f}"] for a confidence kept in hundredths. *)
Definition format_2f (hundredths : nat) : string :=
  let frac := hundredths mod 100 in
  Text.string_of_nat (hundredths / 100) +:+ "." +:+
  Text.string_of_nat (frac / 10) +:+ Text.string_of_nat (frac mod 10).

(** The lines one EARS requirement contributes to the document. *)
Definition ears_entry (item : nat * ExtractedRequirement) : list string :=
  let i := fst item in
  let req := snd item in
  [ "### Requirement " +:+ Text.string_of_nat i;
    "";
    "**Text:** " +:+ text req;
    "**Source:** " +:+ name (source_file req) +:+ ":" +:+
      Text.string_of_nat (line_number req);
    "**Confidence:** " +:+ format_2f (confidence req);
    "" ].

(** [format_as_ears]; [now] is [datetime.now().strftime('%Y-%m-%d %H:%M:%S')]. *)
Definition format_as_ears (now : string)
    (requirements : list ExtractedRequirement) : string :=
  let formatted_lines := [
    "# Requirements Aggregate";
    "";
    "This document contains all requirements extracted from the project documentation,";
    "formatted in EARS (Easy Approach to Requirements Syntax) format.";
    "";
    "**Generated:** " +:+ now;
    "**Total Requirements:** " +:+ Text.string_of_nat (length requirements);
    "" ] in
  let ears_reqs :=
    filter (fun r => requirement_type r = EARS) requirements in
  let general_reqs :=
    filter (fun r => requirement_type r = GENERAL) requirements in
  let user_stories :=
    filter (fun r => requirement_type r = USER_STORY) requirements in
  let formatted_lines :=
    match ears_reqs with
    | [] => formatted_lines
    | _ => formatted_lines ++ ["## EARS Format Requirements"; ""] ++
           concat (map ears_entry (enumerate 1 ears_reqs))
    end in
  Text.join (String "010" "") formatted_lines.

End RequirementsAggregator.

(** ** What the specification says of the aggregator, in its own words *)
Module RequirementsSpec.
Import Pathlib Regex RequirementsAggregator.

(** A pattern family matches a line when one of its patterns is found in it. *)
Definition family_matches (family : list regex) (line : string) : bool :=
  existsb (fun pattern => search pattern line) family.

(** The priority order EARS, general modal-verb statement, user story. *)
Definition winning_family (line : string) : option RequirementType :=
  if family_matches _ears_patterns line then Some EARS
  else if family_matches _general_requirement_patterns line then Some GENERAL
  else if family_matches _user_story_patterns line then Some USER_STORY
  else None.

Definition family_confidence (ty : RequirementType) : nat :=
  match ty with EARS => 90 | GENERAL => 70 | USER_STORY => 80 end.

(** The record, if any, of one numbered line of a document. *)
Definition line_record (file_path : Path) (item : nat * string)
  : option ExtractedRequirement :=
  let line := Text.strip (snd item) in
  if decide (line = "") then None
  else
    match winning_family line with
    | Some ty =>
        Some {| text := Text.strip line; source_file := file_path;
                line_number := fst item; requirement_type := ty;
                confidence := family_confidence ty;
                context := _get_context line 50 |}
    | None => None
    end.

(** The numbered lines of a document. *)
Definition numbered_lines (content : string) : list (nat * string) :=
  enumerate 1 (Text.split "010" content).

(** Normalized text and token set of a requirement. *)
Definition norm (r : ExtractedRequirement) : string := _normalize_text (text r).
Definition tokens (r : ExtractedRequirement) : gset string := word_set (norm r).

(** The token-set Jaccard similarity of two requirements. *)
Definition jaccard (r k : ExtractedRequirement) : Q :=
  similarity (tokens r) (tokens k).

(** [r] is a near-duplicate of [k]: both have tokens and the similarity
    reaches the threshold. *)
Definition near_duplicate (r k : ExtractedRequirement) : Prop :=
  tokens r ≠ ∅ ∧ tokens k ≠ ∅ ∧ (default_threshold <= jaccard r k)%Q.

(** [r] is absorbed by the requirements kept so far: one of them has the same
    normalized text, or [r] is a near-duplicate of one of them. *)
Definition absorbed (kept : list ExtractedRequirement)
    (r : ExtractedRequirement) : bool :=
  bool_decide (norm r ∈ norm <$> kept) ||
  existsb (fun k => _are_similar (text r) (text k) default_threshold) kept.

(** Scanning left to right, keeping what is not absorbed. *)
Fixpoint scan (kept : list ExtractedRequirement)
    (reqs : list ExtractedRequirement) : list ExtractedRequirement :=
  match reqs with
  | [] => kept
  | r :: rest =>
      if absorbed kept r then scan kept rest else scan (kept ++ [r]) rest
  end.

(** No element of [reqs] is absorbed by [kept] and the elements before it. *)
Fixpoint clean_from (kept : list ExtractedRequirement)
    (reqs : list ExtractedRequirement) : Prop :=
  match reqs with
  | [] => True
  | r :: rest => absorbed kept r = false ∧ clean_from (kept ++ [r]) rest
  end.

(** The normalized texts of the requirements kept so far. *)
Definition seen_of (kept : list ExtractedRequirement) : gset string :=
  list_to_set (norm <$> kept).

Definition newline : string := String "010" "".

(** The lines every document starts with. *)
Definition preamble (now : string) (total : nat) : list string :=
  [ "# Requirements Aggregate";
    "";
    "This document contains all requirements extracted from the project documentation,";
    "formatted in EARS (Easy Approach to Requirements Syntax) format.";
    "";
    "**Generated:** " +:+ now;
    "**Total Requirements:** " +:+ Text.string_of_nat total;
    "" ].

(** Sample requirements. *)
Definition sample (t : string) (file : string) (line : nat)
    (ty : RequirementType) : ExtractedRequirement :=
  {| text := t; source_file := rel [file]; line_number := line;
     requirement_type := ty; confidence := family_confidence ty;
     context := t |}.

Definition req_four_words : ExtractedRequirement :=
  sample "a b c d" "one.md" 1 GENERAL.
Definition req_five_words : ExtractedRequirement :=
  sample "a b c d e" "two.md" 2 GENERAL.
Definition req_validate : ExtractedRequirement :=
  sample "The system must validate input" "test2.md" 2 GENERAL.
Definition req_login : ExtractedRequirement :=
  sample "As a user, I want to log in, so that I can work" "test3.md" 7
         USER_STORY.

End RequirementsSpec.

(** ** The scoring of test_classifier_logic
    (tests_and_validations/test_classifier_simple.py)

    The weights 0.4, 0.3 and 0.2 are kept in tenths.  Every category receives
    its additions in the same order, so equal sums of tenths are equal floats
    and different sums differ by at least 0.1. *)
Module Classifier.

(** [any(word in s for word in words)] *)
Definition any_in (words : list string) (s : string) : bool :=
  existsb (fun word => Text.contains word s) words.

(** [scores[category] += weight] on a dict kept in insertion order. *)
Definition bump (category : string) (weight : nat)
    (scores : list (string * nat)) : list (string * nat) :=
  map (fun kv => if String.eqb (fst kv) category
                 then (fst kv, snd kv + weight) else kv) scores.

(** [scores[category]] *)
Fixpoint score_of (scores : list (string * nat)) (category : string) : nat :=
  match scores with
  | [] => 0
  | kv :: rest =>
      if String.eqb (fst kv) category then snd kv else score_of rest category
  end.

Definition initial_scores : list (string * nat) :=
  [("features", 0); ("fixes", 0); ("reference", 0)].

Definition filename_scoring (filename : string)
    (scores : list (string * nat)) : list (string * nat) :=
  if any_in ["feature"; "spec"; "requirement"] (Text.lower filename)
  then bump "features" 4 scores
  else if any_in ["fix"; "bug"; "issue"] (Text.lower filename)
  then bump "fixes" 4 scores
  else if any_in ["api"; "guide"; "reference"] (Text.lower filename)
  then bump "reference" 4 scores
  else scores.

Definition content_scoring (content : string)
    (scores : list (string * nat)) : list (string * nat) :=
  let content_lower := Text.lower content in
  let scores :=
    if any_in ["as a"; "user story"; "system shall"] content_lower
    then bump "features" 3 scores else scores in
  let scores :=
    if any_in ["feature"; "requirement"; "specification"] content_lower
    then bump "features" 2 scores else scores in
  let scores :=
    if any_in ["fixed"; "resolved"; "bug"] content_lower
    then bump "fixes" 3 scores else scores in
  let scores :=
    if any_in ["error"; "issue"; "problem"] content_lower
    then bump "fixes" 2 scores else scores in
  let scores :=
    if any_in ["this document"; "api endpoint"; "usage example"] content_lower
    then bump "reference" 3 scores else scores in
  let scores :=
    if any_in ["documentation"; "guide"; "reference"] content_lower
    then bump "reference" 2 scores else scores in
  scores.

Definition score_file (filename content : string) : list (string * nat) :=
  content_scoring content (filename_scoring filename initial_scores).

(** [max(scores.keys(), key=lambda k: scores[k])]: the keys are visited in
    insertion order and the candidate changes only on a strictly larger
    value. *)
Fixpoint max_from (best : string * nat) (rest : list (string * nat))
  : string * nat :=
  match rest with
  | [] => best
  | kv :: rest' =>
      if snd best <? snd kv then max_from kv rest' else max_from best rest'
  end.

(** [None] stands for the [ValueError] of [max] on an empty dict. *)
Definition python_max (scores : list (string * nat)) : option (string * nat) :=
  match scores with
  | [] => None
  | kv :: rest => Some (max_from kv rest)
  end.

(** [(predicted, confidence)] *)
Definition predict (filename content : string) : option (string * nat) :=
  python_max (score_file filename content).

(** The kinds of signal and the priority the specification gives them. *)
Inductive signal := Filename | ContentKeyword | SentencePattern | DirectoryContext.


Definition weight (s : signal) : nat :=
  match s with
  | Filename => 4
  | SentencePattern => 3
  | ContentKeyword => 2
  | DirectoryContext => 0
  end.

(** Which branch of the filename chain is taken. *)
Definition filename_category (filename : string) : option string :=
  if any_in ["feature"; "spec"; "requirement"] (Text.lower filename)
  then Some "features"
  else if any_in ["fix"; "bug"; "issue"] (Text.lower filename)
  then Some "fixes"
  else if any_in ["api"; "guide"; "reference"] (Text.lower filename)
  then Some "reference"
  else None.

Definition pattern_words (category : string) : list string :=
  if String.eqb category "features"
  then ["as a"; "user story"; "system shall"]
  else if String.eqb category "fixes" then ["fixed"; "resolved"; "bug"]
  else if String.eqb category "reference"
  then ["this document"; "api endpoint"; "usage example"]
  else [].

Definition keyword_words (category : string) : list string :=
  if String.eqb category "features"
  then ["feature"; "requirement"; "specification"]
  else if String.eqb category "fixes" then ["error"; "issue"; "problem"]
  else if String.eqb category "reference"
  then ["documentation"; "guide"; "reference"]
  else [].

(** The signals that favour [category], highest priority first. *)
Definition signals_for (filename content category : string) : list signal :=
  (if bool_decide (filename_category filename = Some category)
   then [Filename] else []) ++
  (if any_in (keyword_words category) (Text.lower content)
   then [ContentKeyword] else []) ++
  (if any_in (pattern_words category) (Text.lower content)
   then [SentencePattern] else []).

Definition total_weight (signals : list signal) : nat :=
  fold_right (fun s acc => weight s + acc) 0 signals.

Definition categories : list string := ["features"; "fixes"; "reference"].

End Classifier.

(** ** The tie-break the specification describes, in its words *)
Module ClassifierSpec.
Import Classifier.


End ClassifierSpec.

(** ** StructureValidator

    [organize/structure_validator.py] is not among the sources; the tests
    call it.  Scores are exact fractions. *)
Module StructureValidator.

(** Modelled from the spec: [generate_compliance_score] of
    [StructureValidator], which is missing.  Section 4.2 gives
    [compliance_score = existing / (existing + missing)], defined as 1.0
    when both counts are zero; the test calls it as
    [generate_compliance_score(10, 7) == 0.7], the number of expected
    directories first and the number found second. *)
Definition generate_compliance_score (total_expected found : nat) : Q :=
  if total_expected =? 0 then 1%Q
  else (Z.of_nat found # Pos.of_nat total_expected)%Q.

(** Modelled from the spec: the score of a validation result that has
    [existing] directories present and [missing] directories absent. *)
Definition compliance_score (existing missing : nat) : Q :=
  generate_compliance_score (existing + missing) existing.

End StructureValidator.

(** ** The filesystem the code acts on

    A finite map from absolute component lists to nodes.  The root [[]] is a
    directory and is never a key.  Symbolic links, permissions and other
    operating-system failures are outside the model: a call fails only for
    the reasons the tree itself gives (a file in the way). *)
Module FileSystem.
Import Pathlib.

Inductive node :=
  | Dir
  | File (content : string).

Global Instance node_eq_dec : EqDecision node.
Proof. solve_decision. Defined.

Record filesystem := {
  cwd : list string;
  nodes : gmap (list string) node
}.

(** The absolute components a path denotes. *)
Definition resolve (fs : filesystem) (p : Path) : list string :=
  if is_absolute p then parts p else cwd fs ++ parts p.

Definition lookup_node (m : gmap (list string) node) (q : list string)
  : option node :=
  match q with
  | [] => Some Dir
  | _ => m !! q
  end.

Definition node_at (fs : filesystem) (p : Path) : option node :=
  lookup_node (nodes fs) (resolve fs p).

(** [p.exists()] *)
Definition exists_ (fs : filesystem) (p : Path) : bool :=
  match node_at fs p with Some _ => true | None => false end.

(** [p.is_dir()] *)
Definition is_dir (fs : filesystem) (p : Path) : bool :=
  match node_at fs p with Some Dir => true | _ => false end.

(** [p.is_file()] *)
Definition is_file (fs : filesystem) (p : Path) : bool :=
  match node_at fs p with Some (File _) => true | _ => false end.

(** The directory holding [q]; the root has none. *)
Definition parent (q : list string) : option (list string) :=
  match q with
  | [] => None
  | _ => Some (removelast q)
  end.

(** [os.makedirs]-like walk from [pre] down the components [rest]: existing
    directories are entered, missing ones are made, a file in the way is an
    [OSError] ([None]). *)
Fixpoint mkdirs (m : gmap (list string) node) (pre rest : list string)
  : option (gmap (list string) node) :=
  match rest with
  | [] => Some m
  | c :: rest' =>
      let q := pre ++ [c] in
      match m !! q with
      | Some (File _) => None
      | Some Dir => mkdirs m q rest'
      | None => mkdirs (<[q := Dir]> m) q rest'
      end
  end.

(** [p.mkdir(parents=True, exist_ok=True)]; [None] when it raises, in which
    case nothing has been made. *)
Definition mkdir_parents (fs : filesystem) (p : Path) : option filesystem :=
  match mkdirs (nodes fs) [] (resolve fs p) with
  | Some m => Some {| cwd := cwd fs; nodes := m |}
  | None => None
  end.

(** Every entry sits in the root or in a directory. *)
Definition well_formed (m : gmap (list string) node) : Prop :=
  forall q n, m !! q = Some n ->
    exists p, parent q = Some p /\ lookup_node m p = Some Dir.


(** [fs'] has everything [fs] has, unchanged. *)
Definition extends (fs fs' : filesystem) : Prop :=
  cwd fs' = cwd fs /\
  forall q n, nodes fs !! q = Some n -> nodes fs' !! q = Some n.

End FileSystem.

(** ** The records of the data model
    ([MockFileOperation], [MockBackupSession] and [MockCreationResult] in
    test_directory_creator_simple.py).  Timestamps are left out. *)
Module Models.
Import Pathlib.

Inductive OperationType := CREATE | MOVE | DELETE.

Global Instance OperationType_eq_dec : EqDecision OperationType.
Proof. solve_decision. Defined.

Record FileOperation := {
  operation_type : OperationType;
  source_path : option Path;
  target_path : Path
}.

Record BackupSession := {
  session_id : string;
  session_label : string;                  (* [operation_type] of the session *)
  backed_up_files : list (Path * string);  (* location and bytes *)
  operation_log : list FileOperation
}.

Record CreationResult := {
  created_directories : list Path;
  failed_directories : list (Path * string);
  success : bool;
  errors : list string;
  warnings : list string
}.

(** What a call does: it returns a value or raises. *)
Inductive outcome (A : Type) :=
  | Returned (value : A)
  | Raised (message : string).
Arguments Returned {A} value.
Arguments Raised {A} message.

(** The one method of a backup manager the directory creator calls. *)
Class BackupManager (M : Type) := {
  track_operation : M -> string -> FileOperation -> M
}.

End Models.

(** ** DirectoryCreator
    (tests_and_validations/test_directory_creator_simple.py) *)
Module DirectoryCreator.
Import Pathlib FileSystem Models.

(** [MockBackupManager]: the operations tracked so far. *)
Record MockBackupManager := { operations : list FileOperation }.

Global Instance MockBackupManager_tracks : BackupManager MockBackupManager := {
  track_operation self session_id operation :=
    {| operations := operations self ++ [operation] |}
}.

(** [MockBackupSession(session_id)] *)
Definition MockBackupSession (id : string) : BackupSession :=
  {| session_id := id; session_label := "directory_creation";
     backed_up_files := []; operation_log := [] |}.

(** [ensure_directory_exists]: the answer and the filesystem afterwards. *)
Definition ensure_directory_exists (fs : filesystem) (directory : Path)
  : bool * filesystem :=
  if exists_ fs directory then (is_dir fs directory, fs)
  else
    match mkdir_parents fs directory with
    | Some fs' => (exists_ fs' directory && is_dir fs' directory, fs')
    | None => (false, fs)
    end.

Section create.
Context {M : Type} `{BackupManager M}.

(** The variables of [create_missing_directories] while it loops. *)
Record loop_state := {
  st_fs : filesystem;
  st_manager : M;
  st_created : list Path;
  st_failed : list (Path * string);
  st_errors : list string;
  st_warnings : list string
}.

(** [target_path] of one entry of [missing_dirs]. *)
Definition target_of (project_dir missing_dir : Path) : Path :=
  if is_absolute missing_dir then missing_dir
  else joinpath project_dir missing_dir.

(** One turn of the loop.  No primitive of the model raises, so the
    [except] branch of the source is not taken. *)
Definition create_one (project_dir : Path) (backup_session : BackupSession)
    (st : loop_state) (missing_dir : Path) : loop_state :=
  let target_path := target_of project_dir missing_dir in
  if exists_ (st_fs st) target_path then
    if is_dir (st_fs st) target_path then
      {| st_fs := st_fs st; st_manager := st_manager st;
         st_created := st_created st; st_failed := st_failed st;
         st_errors := st_errors st;
         st_warnings := st_warnings st ++
           ["Directory already exists: " +:+ to_string target_path] |}
    else
      let error_msg :=
        "Path exists but is not a directory: " +:+ to_string target_path in
      {| st_fs := st_fs st; st_manager := st_manager st;
         st_created := st_created st;
         st_failed := st_failed st ++ [(target_path, error_msg)];
         st_errors := st_errors st ++ [error_msg];
         st_warnings := st_warnings st |}
  else
    let '(ok, fs') := ensure_directory_exists (st_fs st) target_path in
    if ok then
      let operation :=
        {| operation_type := CREATE; source_path := None;
           target_path := target_path |} in
      {| st_fs := fs';
         st_manager :=
           track_operation (st_manager st) (session_id backup_session)
                           operation;
         st_created := st_created st ++ [target_path];
         st_failed := st_failed st; st_errors := st_errors st;
         st_warnings := st_warnings st |}
    else
      let error_msg :=
        "Failed to create directory: " +:+ to_string target_path in
      {| st_fs := fs'; st_manager := st_manager st;
         st_created := st_created st;
         st_failed := st_failed st ++ [(target_path, error_msg)];
         st_errors := st_errors st ++ [error_msg];
         st_warnings := st_warnings st |}.

(** The two messages about a target that is already there. *)
Definition already_exists_warning (project_dir missing_dir : Path) : string :=
  "Directory already exists: " +:+ to_string (target_of project_dir missing_dir).

Definition not_a_directory_error (project_dir missing_dir : Path) : string :=
  "Path exists but is not a directory: " +:+
  to_string (target_of project_dir missing_dir).

Definition initial_state (fs : filesystem) (manager : M) : loop_state :=
  {| st_fs := fs; st_manager := manager; st_created := []; st_failed := [];
     st_errors := []; st_warnings := [] |}.

Definition result_of (st : loop_state) : CreationResult :=
  {| created_directories := st_created st;
     failed_directories := st_failed st;
     success := bool_decide (length (st_failed st) = 0);
     errors := st_errors st;
     warnings := st_warnings st |}.

(** [create_missing_directories]: the filesystem and the backup manager
    afterwards, with the result. *)
Definition create_missing_directories (fs : filesystem) (manager : M)
    (project_dir : Path) (missing_dirs : list Path)
    (backup_session : BackupSession)
  : outcome (filesystem * M * CreationResult) :=
  if negb (exists_ fs project_dir) then
    Raised ("Project directory does not exist: " +:+ to_string project_dir)
  else
    let st := fold_left (create_one project_dir backup_session) missing_dirs
                        (initial_state fs manager) in
    Returned (st_fs st, st_manager st, result_of st).

End create.

End DirectoryCreator.

(** ** A small project tree used in examples *)
Module Samples.
Import Pathlib FileSystem Models DirectoryCreator.

(** [/tmp/project] with a file [conflict] in it; the process runs in [/tmp]. *)
Definition sample_fs : filesystem :=
  {| cwd := ["tmp"];
     nodes := {[ ["tmp"] := Dir;
                 ["tmp"; "project"] := Dir;
                 ["tmp"; "project"; "conflict"] := File "This is a file" ]} |}.

Definition sample_project : Path := rel ["project"].

Definition sample_manager : MockBackupManager := {| operations := [] |}.

Definition sample_session : BackupSession := MockBackupSession "test-session".

(** [missing_dirs] of the first test. *)
Definition sample_dirs : list Path :=
  [rel ["specs"]; rel ["specs"; "features"]; rel ["docs"]].

End Samples.

(** ** Backup / Undo Manager

    [onboarding/backup_manager.py] is not among the sources.  The store of
    sessions is a value of its own, handed to the manager, apart from the
    project tree (section 9 of the specification asks for the store path to
    be an explicit configuration value). *)
Module BackupManager.
Import Pathlib FileSystem Models.

(** Modelled from the spec: the durable store of the missing [BackupManager],
    "sessions accumulate across runs and the most recent is the undo
    default": the sessions, most recent first, and a counter for fresh ids. *)
Record store := {
  sessions : list BackupSession;
  next_id : nat
}.

(** Modelled from the spec: the copies the missing [create_backup] takes,
    "the given files' current bytes/location"; what is not a file is
    skipped. *)
Definition snapshot (fs : filesystem) (files : list Path)
  : list (Path * string) :=
  omap (fun p => match node_at fs p with
                 | Some (File content) => Some (p, content)
                 | _ => None
                 end) files.

(** Modelled from the spec: [create_backup(files, operation_label)] of the
    missing [BackupManager], which "snapshots the given files' current
    bytes/location into a session-scoped store and returns a new session
    descriptor with a fresh unique id". *)
Definition create_backup (st : store) (fs : filesystem) (files : list Path)
    (operation_label : string) : store * BackupSession :=
  let session :=
    {| session_id := "session-" +:+ Text.string_of_nat (next_id st);
       session_label := operation_label;
       backed_up_files := snapshot fs files;
       operation_log := [] |} in
  ({| sessions := session :: sessions st; next_id := S (next_id st) |},
   session).

(** Modelled from the spec: [track_operation(session_id, operation)] of the
    missing [BackupManager], which "appends a FileOperation to that
    session's log"; the most recent session with the id is the one meant. *)
Fixpoint append_to (id : string) (operation : FileOperation)
    (ss : list BackupSession) : list BackupSession :=
  match ss with
  | [] => []
  | s :: rest =>
      if String.eqb (session_id s) id
      then {| session_id := session_id s; session_label := session_label s;
              backed_up_files := backed_up_files s;
              operation_log := operation_log s ++ [operation] |} :: rest
      else s :: append_to id operation rest
  end.

(** Modelled from the spec: [track_operation] on the store. *)
Definition store_track (st : store) (id : string) (operation : FileOperation)
  : store :=
  {| sessions := append_to id operation (sessions st); next_id := next_id st |}.

(** A run with [backup_enabled] false has no manager: [None] tracks nothing. *)
Global Instance optional_store_tracks : BackupManager (option store) := {
  track_operation manager id operation :=
    match manager with
    | Some st => Some (store_track st id operation)
    | None => None
    end
}.

(** Modelled from the spec: [list_backup_sessions()], "most recent first". *)
Definition list_backup_sessions (st : store) : list BackupSession := sessions st.



(** The filesystem with its entries replaced. *)
Definition with_nodes (fs : filesystem) (m : gmap (list string) node)
  : filesystem :=
  {| cwd := cwd fs; nodes := m |}.






End BackupManager.

(** ** Reorganizer

    [onboarding/name_only_reorganizer.py] and the validator it calls are not
    among the sources.  The classifier and the glob matcher are taken as
    given: nothing below depends on which they are. *)
Module Reorganizer.
Import Pathlib FileSystem Models DirectoryCreator BackupManager.

(** Modelled from the spec: [directory_structure] of the missing
    [ParsedTemplate], a "nested mapping name -> substructure". *)
Inductive tree := Tree (children : list (string * tree)).

(** Modelled from the spec: the missing [ParsedTemplate] of section 3. *)
Record ParsedTemplate := {
  template_name : string;
  directory_structure : tree;
  file_placement_rules : list (string * Path)
}.

(** Modelled from the spec: the walk of the missing [validate_structure]
    over "the template's nested directory map", giving "each expected
    relative path", a directory before what it holds. *)
Fixpoint expected_under (pre : list string) (t : tree) : list (list string) :=
  match t with
  | Tree children =>
      (fix each (cs : list (string * tree)) : list (list string) :=
         match cs with
         | [] => []
         | (dir_name, sub) :: cs' =>
             (pre ++ [dir_name]) :: expected_under (pre ++ [dir_name]) sub
               ++ each cs'
         end) children
  end.

(** Modelled from the spec: the expected relative paths of a template. *)
Definition expected_directories (template : ParsedTemplate)
  : list (list string) :=
  expected_under [] (directory_structure template).

(** Modelled from the spec: the missing [StructureValidationResult] of
    section 3, without the unexpected directories. *)
Record StructureValidationResult := {
  compliance_score : Q;
  missing_directories : list Path;
  existing_directories : list Path
}.

(** Modelled from the spec: the missing [validate_structure], which "fails
    with StructureValidationError when project_dir does not exist" and, "for
    each expected relative path, checks existence under project_dir;
    partitions into missing vs existing".  The unexpected directories, which
    are "informational only", are left out. *)
Definition validate_structure (fs : filesystem) (project_dir : Path)
    (template : ParsedTemplate) : outcome StructureValidationResult :=
  if negb (exists_ fs project_dir) then
    Raised ("Project directory does not exist: " +:+ to_string project_dir)
  else
    let expected := map rel (expected_directories template) in
    let present := fun d => exists_ fs (joinpath project_dir d) in
    let existing := filter (fun d => present d = true) expected in
    let missing := filter (fun d => present d = false) expected in
    Returned
      {| compliance_score :=
           StructureValidator.generate_compliance_score
             (length expected) (length existing);
         missing_directories := missing;
         existing_directories := existing |}.

(** Modelled from the spec: the missing [ClassifiedFile] of section 3. *)
Record ClassifiedFile := {
  path : Path;
  category : string;
  confidence : nat;                       (* hundredths *)
  classification_reasons : list string
}.

(** Modelled from the spec: the configuration section 4.5 lists
    ([NameOnlyConfig] in the tests). *)
Record NameOnlyConfig := {
  template : ParsedTemplate;              (* the parsed [template_file] *)
  confidence_threshold : nat;             (* hundredths *)
  fallback_category : string;
  backup_enabled : bool;
  dry_run : bool;
  exclusion_patterns : list string
}.

(** Modelled from the spec: the missing [ReorganizationResult] of section 3,
    with the planned moves and without the execution time. *)
Record ReorganizationResult := {
  success : bool;
  files_classified : nat;
  planned_moves : list (Path * Path);
  created_directories : list Path;
  failed_directories : list (Path * string);
  errors : list string;
  warnings : list string
}.

(** Modelled from the spec: the exclusions that apply "by default". *)
Definition default_exclusions : list string :=
  ["README*"; "LICENSE*"; "CHANGELOG*"; "CONTRIBUTING*"].

(** [s.endswith(suffix)] *)
Definition endswith (suffix s : string) : bool :=
  String.prefix (String.rev suffix) (String.rev s).

(** [q] lies below the directory [base]. *)
Definition is_under (base q : list string) : bool :=
  bool_decide (take (length base) q = base) && (length base <? length q).

(** Modelled from the spec: the lookup in [file_placement_rules], a
    "mapping category -> relative target directory". *)
Fixpoint rule_for (rules : list (string * Path)) (category : string)
  : option Path :=
  match rules with
  | [] => None
  | (c, dir) :: rest => if String.eqb c category then Some dir
                        else rule_for rest category
  end.

(** Modelled from the spec: what the mover of the missing reorganizer
    carries: the filesystem, the backup manager if any, the errors. *)
Record mover := {
  mv_fs : filesystem;
  mv_manager : option store;
  mv_errors : list string
}.

Section run.
Variable classify : Path -> string -> ClassifiedFile.
Variable glob_match : string -> string -> bool.

(** Modelled from the spec: a file name matches an exclusion pattern. *)
Definition excluded (patterns : list string) (file_name : string) : bool :=
  existsb (fun pattern => glob_match pattern file_name)
          (default_exclusions ++ patterns).

(** Modelled from the spec: file discovery, "discovers markdown documents in
    a project"; files matching an exclusion pattern "are never
    discovered/moved".  Each document comes with its content. *)
Definition discover (fs : filesystem) (project_dir : Path)
    (patterns : list string) : list (Path * string) :=
  omap (fun kv =>
          match snd kv with
          | File content =>
              let file_name := List.last (fst kv) "" in
              if is_under (resolve fs project_dir) (fst kv)
                 && endswith ".md" file_name
                 && negb (excluded patterns file_name)
              then Some ({| is_absolute := true; parts := fst kv |}, content)
              else None
          | Dir => None
          end) (map_to_list (nodes fs)).

(** Modelled from the spec: PLAN_MOVES.  A file whose confidence is below
    [confidence_threshold] goes "to fallback category directory rather than
    [its] computed one"; the directory of a category is given by
    [file_placement_rules]. *)
Definition destination (project_dir : Path) (config : NameOnlyConfig)
    (file : Path * string) : option Path :=
  let classified := classify (fst file) (snd file) in
  let chosen :=
    if confidence classified <? confidence_threshold config
    then fallback_category config else category classified in
  match rule_for (file_placement_rules (template config)) chosen with
  | Some dir =>
      Some (joinpath (joinpath project_dir dir) (rel [name (fst file)]))
  | None => None
  end.

(** Modelled from the spec: the plan, one move per file that has a
    destination. *)
Definition plan_moves (project_dir : Path) (config : NameOnlyConfig)
    (files : list (Path * string)) : list (Path * Path) :=
  omap (fun file =>
          match destination project_dir config file with
          | Some target => Some (fst file, target)
          | None => None
          end) files.

(** Modelled from the spec: one move of EXECUTE.  A file already in place is
    left alone.  Otherwise the file is moved when it is there, nothing is at
    the destination and the destination directory stands; the MOVE is then appended to the session "as the Reorganizer
    performs each move".  Otherwise the failure is collected and the run goes
    on. *)
Definition move_one (session : string) (mv : mover) (move : Path * Path)
  : mover :=
  let fs := mv_fs mv in
  let source := resolve fs (fst move) in
  let target := resolve fs (snd move) in
  match lookup_node (nodes fs) source, parent source, parent target with
  | Some (File content), Some _, Some dir =>
      if bool_decide (source = target) then mv
      else if exists_ fs (snd move) then
        {| mv_fs := fs; mv_manager := mv_manager mv;
           mv_errors := mv_errors mv ++
             ["Target exists: " +:+ to_string (snd move)] |}
      else
        match lookup_node (nodes fs) dir with
        | Some Dir =>
            {| mv_fs := with_nodes fs
                 (<[target := File content]> (delete source (nodes fs)));
               mv_manager :=
                 track_operation (mv_manager mv) session
                   {| operation_type := MOVE; source_path := Some (fst move);
                      target_path := snd move |};
               mv_errors := mv_errors mv |}
        | _ =>
            {| mv_fs := fs; mv_manager := mv_manager mv;
               mv_errors := mv_errors mv ++
                 ["Target directory is missing: " +:+ to_string (snd move)] |}
        end
  | _, _, _ =>
      {| mv_fs := fs; mv_manager := mv_manager mv;
         mv_errors := mv_errors mv ++
           ["Cannot move: " +:+ to_string (fst move)] |}
  end.

(** Modelled from the spec: the missing [reorganize_repository], with the
    stages VALIDATE_STRUCTURE, CREATE_DIRECTORIES, CLASSIFY_FILES,
    PLAN_MOVES, then report only (dry run) or backup and move, then REPORT.
    A dry run computes the plan and touches neither the filesystem nor the
    store; with [backup_enabled] false the run has no manager.  Directories
    are created by [DirectoryCreator.create_missing_directories]. *)
Definition reorganize_repository (fs : filesystem) (st : store)
    (project_dir : Path) (config : NameOnlyConfig)
  : filesystem * store * ReorganizationResult :=
  match validate_structure fs project_dir (template config) with
  | Raised message =>
      (fs, st,
       {| success := false; files_classified := 0; planned_moves := [];
          created_directories := []; failed_directories := [];
          errors := [message]; warnings := [] |})
  | Returned validation =>
      let files := discover fs project_dir (exclusion_patterns config) in
      let moves := plan_moves project_dir config files in
      if dry_run config then
        (fs, st,
         {| success := true; files_classified := length files;
            planned_moves := moves; created_directories := [];
            failed_directories := []; errors := [];
            warnings :=
              map (fun d => "Would create directory: " +:+ to_string d)
                  (missing_directories validation) |})
      else
        let '(manager, session) :=
          if backup_enabled config then
            let '(st', session) :=
              create_backup st fs (map fst files) "reorganize" in
            (Some st', session)
          else (None, MockBackupSession "") in
        match create_missing_directories fs manager project_dir
                (missing_directories validation) session with
        | Raised message =>
            (fs, from_option id st manager,
             {| success := false; files_classified := length files;
                planned_moves := moves; created_directories := [];
                failed_directories := []; errors := [message];
                warnings := [] |})
        | Returned (fs1, manager1, creation) =>
            let mv :=
              fold_left (move_one (session_id session)) moves
                {| mv_fs := fs1; mv_manager := manager1; mv_errors := [] |} in
            (mv_fs mv, from_option id st (mv_manager mv),
             {| success :=
                  Models.success creation
                  && bool_decide (length (mv_errors mv) = 0);
                files_classified := length files;
                planned_moves := moves;
                created_directories := Models.created_directories creation;
                failed_directories := Models.failed_directories creation;
                errors := Models.errors creation ++ mv_errors mv;
                warnings := Models.warnings creation |})
        end
  end.

End run.

End Reorganizer.

(** ** A project to reorganize, used in examples *)
Module ReorganizerSamples.
Import Pathlib FileSystem Models DirectoryCreator BackupManager Reorganizer.

(** [/tmp/project] holding a README and two documents. *)
Definition project_fs : filesystem :=
  {| cwd := ["tmp"];
     nodes := {[ ["tmp"] := Dir;
                 ["tmp"; "project"] := Dir;
                 ["tmp"; "project"; "README.md"] := File "# Test Project";
                 ["tmp"; "project"; "login_feature.md"] := File "As a user";
                 ["tmp"; "project"; "bug_fix.md"] := File "Fixed issue" ]} |}.

Definition project : Path := rel ["project"].

Definition empty_store : store := {| sessions := []; next_id := 0 |}.

(** [specs/] with [features/] and [fixes/] in it. *)
Definition sample_template : ParsedTemplate :=
  {| template_name := "sample";
     directory_structure :=
       Tree [("specs", Tree [("features", Tree []); ("fixes", Tree [])])];
     file_placement_rules :=
       [("features", rel ["specs"; "features"]);
        ("fixes", rel ["specs"; "fixes"]);
        ("reference", rel ["specs"; "reference"])] |}.

(** The scoring of the test as the classifier, tenths turned to hundredths. *)
Definition sample_classify (p : Path) (content : string) : ClassifiedFile :=
  match Classifier.predict (name p) content with
  | Some (winner, score) =>
      {| path := p; category := winner; confidence := score * 10;
         classification_reasons := [] |}
  | None =>
      {| path := p; category := "reference"; confidence := 0;
         classification_reasons := [] |}
  end.

(** Patterns of the form [PREFIX*] only. *)
Definition sample_glob (pattern file_name : string) : bool :=
  String.prefix (Text.take (String.length pattern - 1) pattern) file_name.

Definition sample_config (dry : bool) : NameOnlyConfig :=
  {| template := sample_template; confidence_threshold := 10;
     fallback_category := "reference"; backup_enabled := true;
     dry_run := dry; exclusion_patterns := [] |}.

(** The same configuration with [dry_run] set. *)
Definition with_dry_run (config : NameOnlyConfig) (dry : bool)
  : NameOnlyConfig :=
  {| template := template config;
     confidence_threshold := confidence_threshold config;
     fallback_category := fallback_category config;
     backup_enabled := backup_enabled config;
     dry_run := dry;
     exclusion_patterns := exclusion_patterns config |}.

End ReorganizerSamples.

(** ** Notions used to state and prove the round trip *)
Module ReorganizerSpec.
Import Pathlib FileSystem Models DirectoryCreator BackupManager Reorganizer.

(** The operation [op] took [fs] to [fs'] in the one way its reversal
    undoes: a directory made where nothing was, in a directory that stood; or
    a file moved to where nothing was, into a directory that stood. *)
Definition reversible (fs : filesystem) (op : FileOperation)
    (fs' : filesystem) : Prop :=
  cwd fs' = cwd fs /\
  let target := resolve fs (target_path op) in
  target <> [] /\
  nodes fs !! target = None /\
  lookup_node (nodes fs) (removelast target) = Some Dir /\
  match operation_type op, source_path op with
  | CREATE, _ => nodes fs' = <[target := Dir]> (nodes fs)
  | MOVE, Some source_path =>
      exists content,
        nodes fs !! resolve fs source_path = Some (File content) /\
        nodes fs' =
          <[target := File content]>
            (delete (resolve fs source_path) (nodes fs))
  | _, _ => False
  end.

(** A log of reversible operations leading from one filesystem to another. *)
Inductive replay : filesystem -> list FileOperation -> filesystem -> Prop :=
  | replay_nil fs : replay fs [] fs
  | replay_cons fs op fs1 ops fs2 :
      reversible fs op fs1 -> replay fs1 ops fs2 ->
      replay fs (op :: ops) fs2.

(** Tracking a list of operations, one after the other. *)
Definition track_all {M : Type} `{BackupManager M} (manager : M)
    (session : string) (ops : list FileOperation) : M :=
  fold_left (fun m op => track_operation m session op) ops manager.





End ReorganizerSpec.

(** ** Further notions about the aggregator *)
Module AggregatorNotions.
Import Pathlib Regex RequirementsAggregator RequirementsSpec.

(** The same record, [k] lines further down. *)
Definition renumber (k : nat) (r : ExtractedRequirement) : ExtractedRequirement :=
  {| text := text r; source_file := source_file r;
     line_number := line_number r + k;
     requirement_type := requirement_type r; confidence := confidence r;
     context := context r |}.

(** The same record, said to come from [file]. *)
Definition with_source (file : Path) (r : ExtractedRequirement)
  : ExtractedRequirement :=
  {| text := text r; source_file := file; line_number := line_number r;
     requirement_type := requirement_type r; confidence := confidence r;
     context := context r |}.

(** Every character of [s] passes the test [p]. *)
Fixpoint all_chars (p : ascii -> bool) (s : string) : bool :=
  match s with
  | EmptyString => true
  | String c s' => p c && all_chars p s'
  end.

(** A lowercase letter, a digit, the underscore or the plain space. *)
Definition normal_char (c : ascii) : bool :=
  Text.islower c || Text.isdigit c || (nat_of_ascii c =? 95)
  || (nat_of_ascii c =? 32).

(** A character that is not an uppercase letter. *)
Definition not_upper (c : ascii) : bool := negb (Text.isupper c).

(** A character that is not uppercase and, if white, is the plain space. *)
Definition collapsed_char (c : ascii) : bool :=
  not_upper c && (negb (Text.isspace c) || (nat_of_ascii c =? 32)).

End AggregatorNotions.

(** ** Further notions about the directory creator *)
Module CreatorNotions.
Import Pathlib FileSystem Models DirectoryCreator.

(** The operation tracked for a directory that has been created. *)
Definition creation_of (target : Path) : FileOperation :=
  {| operation_type := CREATE; source_path := None; target_path := target |}.

(** Two results read one after the other. *)
Definition results_joined (r1 r2 : CreationResult) : CreationResult :=
  {| created_directories := created_directories r1 ++ created_directories r2;
     failed_directories := failed_directories r1 ++ failed_directories r2;
     success := success r1 && success r2;
     errors := errors r1 ++ errors r2;
     warnings := warnings r1 ++ warnings r2 |}.

(** The state [st] of the loop with the lists of [base] put before its own. *)
Definition framed {M : Type} (base st : loop_state (M := M)) : loop_state :=
  {| st_fs := st_fs st; st_manager := st_manager st;
     st_created := st_created base ++ st_created st;
     st_failed := st_failed base ++ st_failed st;
     st_errors := st_errors base ++ st_errors st;
     st_warnings := st_warnings base ++ st_warnings st |}.

End CreatorNotions.

(** ** DirectoryCreator.create_directory_tree
    (tests_and_validations/test_directory_creator_simple.py) *)
Module DirectoryTree.
Import Pathlib FileSystem Models DirectoryCreator.

(** The [structure] argument: a dict, read in its own order.  A value that
    is a dict is a directory to make ([Some]); any other value is passed
    over ([None]).  A key is taken to be one path component. *)
Inductive structure := Structure (items : list (string * option structure)).

(** [_create_recursive], the closure of [create_directory_tree], with the
    list [created_paths] it appends to.  When it raises, the list is lost to
    the caller and the filesystem stays as it was left. *)
Fixpoint _create_recursive (current_structure : structure)
    (current_path : Path) (fs : filesystem) (created_paths : list Path)
    {struct current_structure} : filesystem * outcome (list Path) :=
  match current_structure with
  | Structure items =>
      (fix each (items : list (string * option structure)) (fs : filesystem)
           (created_paths : list Path) {struct items}
         : filesystem * outcome (list Path) :=
         match items with
         | [] => (fs, Returned created_paths)
         | (name, content) :: items' =>
             match content with
             | Some content =>
                 let dir_path := joinpath current_path (rel [name]) in
                 let '(ok, fs1) := ensure_directory_exists fs dir_path in
                 if ok then
                   match _create_recursive content dir_path fs1
                           (created_paths ++ [dir_path]) with
                   | (fs2, Returned created_paths') =>
                       each items' fs2 created_paths'
                   | (fs2, Raised message) => (fs2, Raised message)
                   end
                 else
                   (fs1, Raised ("Failed to create directory: " +:+
                                 to_string dir_path))
             | None => each items' fs created_paths
             end
         end) items fs created_paths
  end.

(** [create_directory_tree]: the filesystem afterwards, with the list
    returned or the exception raised. *)
Definition create_directory_tree (fs : filesystem) (base_dir : Path)
    (structure : structure) : filesystem * outcome (list Path) :=
  if negb (exists_ fs base_dir) then
    let '(ok, fs1) := ensure_directory_exists fs base_dir in
    if negb ok then
      (fs1, Raised ("Failed to create base directory: " +:+
                    to_string base_dir))
    else _create_recursive structure base_dir fs1 [base_dir]
  else _create_recursive structure base_dir fs [].

(** The loop of [_create_recursive] over the items of one dict. *)
Fixpoint create_each (current_path : Path)
    (items : list (string * option structure)) (fs : filesystem)
    (created_paths : list Path) : filesystem * outcome (list Path) :=
  match items with
  | [] => (fs, Returned created_paths)
  | (name, content) :: items' =>
      match content with
      | Some content =>
          let dir_path := joinpath current_path (rel [name]) in
          let '(ok, fs1) := ensure_directory_exists fs dir_path in
          if ok then
            match _create_recursive content dir_path fs1
                    (created_paths ++ [dir_path]) with
            | (fs2, Returned created_paths') =>
                create_each current_path items' fs2 created_paths'
            | (fs2, Raised message) => (fs2, Raised message)
            end
          else
            (fs1, Raised ("Failed to create directory: " +:+
                          to_string dir_path))
      | None => create_each current_path items' fs created_paths
      end
  end.

(** The directories a structure names under [current_path], a directory
    before what it holds and the items of a dict in their order. *)
Fixpoint directories_of (current_path : Path) (s : structure) : list Path :=
  match s with
  | Structure items =>
      (fix each (items : list (string * option structure)) : list Path :=
         match items with
         | [] => []
         | (name, content) :: items' =>
             match content with
             | Some content =>
                 let dir_path := joinpath current_path (rel [name]) in
                 dir_path :: directories_of dir_path content ++ each items'
             | None => each items'
             end
         end) items
  end.

(** The same for the items of one dict. *)
Fixpoint directories_each (current_path : Path)
    (items : list (string * option structure)) : list Path :=
  match items with
  | [] => []
  | (name, content) :: items' =>
      match content with
      | Some content =>
          let dir_path := joinpath current_path (rel [name]) in
          dir_path :: directories_of dir_path content
            ++ directories_each current_path items'
      | None => directories_each current_path items'
      end
  end.

(** Ensuring the directories of a list one after the other, until one
    fails. *)
Fixpoint ensure_all (dirs : list Path) (fs : filesystem)
    (created_paths : list Path) : filesystem * outcome (list Path) :=
  match dirs with
  | [] => (fs, Returned created_paths)
  | dir_path :: rest =>
      let '(ok, fs1) := ensure_directory_exists fs dir_path in
      if ok then ensure_all rest fs1 (created_paths ++ [dir_path])
      else (fs1, Raised ("Failed to create directory: " +:+
                         to_string dir_path))
  end.

(** The paths [create_directory_tree] has to deal with: the base directory
    when it is not there, then the directories of the structure. *)
Definition paths_to_ensure (fs : filesystem) (base_dir : Path)
    (s : structure) : list Path :=
  (if exists_ fs base_dir then [] else [base_dir]) ++ directories_of base_dir s.

(** The structure of the third test, with a value that is not a dict among
    the items. *)
Definition sample_structure : structure :=
  Structure [("new_area",
              Some (Structure [("sub1", Some (Structure []));
                               ("notes.txt", None);
                               ("sub2",
                                Some (Structure
                                        [("deep", Some (Structure []))]))]))].

End DirectoryTree.

(** ** The statistics of test_classification_result_generation
    (tests_and_validations/test_simple_classifier_comprehensive.py)

    The loop reads a classified file through its category and its
    confidence only; the confidence is kept as an exact fraction. *)
Module ClassificationStatistics.
Import Classifier.

Section statistics.
Variable ClassifiedFile : Type.
Variable category : ClassifiedFile -> string.
Variable confidence : ClassifiedFile -> Q.

(** [cf.confidence < 0.5] *)
Definition low_confidence (cf : ClassifiedFile) : bool :=
  negb (Qle_bool (1 # 2) (confidence cf)).

(** One turn of the loop over the pair
    [(classification_distribution, low_confidence_files)]; the dict is kept
    in insertion order. *)
Definition count_step
    (st : list (string * nat) * list ClassifiedFile) (cf : ClassifiedFile)
  : list (string * nat) * list ClassifiedFile :=
  let classification_distribution := fst st in
  let low_confidence_files := snd st in
  let classification_distribution :=
    if bool_decide (category cf ∈ fst <$> classification_distribution)
    then classification_distribution
    else classification_distribution ++ [(category cf, 0)] in
  let classification_distribution :=
    bump (category cf) 1 classification_distribution in
  let low_confidence_files :=
    if low_confidence cf then low_confidence_files ++ [cf]
    else low_confidence_files in
  (classification_distribution, low_confidence_files).

(** [total_files], [classification_distribution] and
    [low_confidence_files] as the test computes them. *)
Definition statistics (classified_files : list ClassifiedFile)
  : nat * list (string * nat) * list ClassifiedFile :=
  let st := fold_left count_step classified_files ([], []) in
  (length classified_files, fst st, snd st).

End statistics.

(** [sum(d.values())] *)
Definition sum_values (d : list (string * nat)) : nat := list_sum (map snd d).

(** The number of files of a category. *)
Definition files_of {ClassifiedFile : Type}
    (category : ClassifiedFile -> string) (c : string)
    (classified_files : list ClassifiedFile) : nat :=
  length (filter (fun cf => category cf = c) classified_files).

End ClassificationStatistics.

(** * Properties *)

(** ** Requirements extraction *)
Module ExtractionFacts.
Import Pathlib Regex RequirementsAggregator RequirementsSpec.

Local Arguments family_matches : simpl never.

Lemma first_hit_family {A} (family : list regex) (line : string) (found : A) :
  first_hit family line found =
  if family_matches family line then Some found else None.
Proof.
  unfold family_matches.
  induction family as [|pattern rest IH]; simpl; [reflexivity|].
  destruct (search pattern line); simpl; [reflexivity|apply IH].
Qed.

Lemma extract_line_record (file_path : Path)
    (requirements : list ExtractedRequirement) (item : nat * string) :
  extract_line file_path requirements item =
  requirements ++ option_list (line_record file_path item).
Proof.
  unfold extract_line, line_record, winning_family.
  unfold _extract_ears_requirement, _extract_general_requirement,
    _extract_user_story.
  rewrite !first_hit_family.
  destruct (decide (Text.strip (snd item) = "")) as [_|_]; simpl.
  { symmetry; apply app_nil_r. }
  destruct (family_matches _ears_patterns _); simpl; [reflexivity|].
  destruct (family_matches _general_requirement_patterns _); simpl;
    [reflexivity|].
  destruct (family_matches _user_story_patterns _); simpl; [reflexivity|].
  symmetry; apply app_nil_r.
Qed.

Lemma extract_loop (file_path : Path) (items : list (nat * string)) :
  forall requirements,
    fold_left (extract_line file_path) items requirements =
    requirements ++ omap (line_record file_path) items.
Proof.
  induction items as [|item items IH]; intros requirements; csimpl.
  - symmetry; apply app_nil_r.
  - rewrite IH, extract_line_record.
    destruct (line_record file_path item); csimpl.
    + rewrite <- app_assoc. reflexivity.
    + rewrite app_nil_r. reflexivity.
Qed.

Lemma omap_length_le {A B} (f : A -> option B) (l : list A) :
  length (omap f l) <= length l.
Proof.
  induction l as [|x l IH]; csimpl; [lia|].
  destruct (f x); csimpl; lia.
Qed.

(** C5. [extract_requirements] goes through the content line by line; each
    numbered line yields at most one record, the one [line_record] describes:
    none for a blank line, otherwise the record of the first family that
    matches in the order EARS, general, user story, whose type it carries,
    and none when no family matches. *)
Theorem extract_requirements_line_by_line (content : string) (file_path : Path) :
  extract_requirements content file_path =
    omap (line_record file_path) (numbered_lines content)
  /\ length (extract_requirements content file_path)
       <= length (numbered_lines content)
  /\ (forall item : nat * string,
        requirement_type <$> line_record file_path item =
        if decide (Text.strip (snd item) = "") then None
        else winning_family (Text.strip (snd item)))
  /\ (forall item : nat * string,
        length (option_list (line_record file_path item)) <= 1).
Proof.
  assert (Heq : extract_requirements content file_path =
                omap (line_record file_path) (numbered_lines content)).
  { unfold extract_requirements, numbered_lines. apply extract_loop. }
  split; [exact Heq|].
  split; [rewrite Heq; apply omap_length_le|].
  split.
  - intros item. unfold line_record.
    destruct (decide (Text.strip (snd item) = "")); [reflexivity|].
    destruct (winning_family _); reflexivity.
  - intros item. destruct (line_record file_path item); simpl; lia.
Qed.

(** The three families on sample lines. *)
Example ears_line_wins :
  requirement_type <$>
    extract_requirements "WHEN it rains THEN the system SHALL stop" (rel ["a.md"])
  = [EARS].
Proof. vm_compute. reflexivity. Qed.

Example general_line :
  requirement_type <$>
    extract_requirements "The system must validate input." (rel ["a.md"])
  = [GENERAL].
Proof. vm_compute. reflexivity. Qed.

Example story_line :
  requirement_type <$>
    extract_requirements (text req_login) (rel ["a.md"]) = [USER_STORY].
Proof. vm_compute. reflexivity. Qed.

Example plain_line :
  extract_requirements "Meeting notes." (rel ["a.md"]) = [].
Proof. vm_compute. reflexivity. Qed.

End ExtractionFacts.

(** ** Deduplication *)
Module DedupFacts.
Import Pathlib Regex RequirementsAggregator RequirementsSpec.

Lemma seen_of_snoc (kept : list ExtractedRequirement) (r : ExtractedRequirement) :
  seen_of kept ∪ {[norm r]} = seen_of (kept ++ [r]).
Proof.
  unfold seen_of. rewrite fmap_app, list_to_set_app_L. simpl.
  by rewrite (right_id_L ∅ (∪)).
Qed.

(** One turn of the loop is one step of [scan]. *)
Lemma dedup_step_scan (kept : list ExtractedRequirement) (r : ExtractedRequirement) :
  dedup_step (kept, seen_of kept) r =
  if absorbed kept r then (kept, seen_of kept)
  else (kept ++ [r], seen_of (kept ++ [r])).
Proof.
  unfold dedup_step, absorbed; simpl.
  fold (norm r).
  destruct (decide (norm r ∈ seen_of kept)) as [Hin|Hnin].
  - rewrite bool_decide_eq_true_2; [reflexivity|].
    unfold seen_of in Hin. by apply elem_of_list_to_set in Hin.
  - rewrite bool_decide_eq_false_2.
    2:{ intros Hin. apply Hnin. unfold seen_of. by apply elem_of_list_to_set. }
    simpl. destruct (existsb _ kept); [reflexivity|].
    by rewrite seen_of_snoc.
Qed.

Lemma dedup_loop_scan (reqs : list ExtractedRequirement) :
  forall kept,
    fold_left dedup_step reqs (kept, seen_of kept) =
    (scan kept reqs, seen_of (scan kept reqs)).
Proof.
  induction reqs as [|r reqs IH]; intros kept; simpl; [reflexivity|].
  rewrite dedup_step_scan.
  destruct (absorbed kept r); apply IH.
Qed.

Lemma deduplicate_scan (reqs : list ExtractedRequirement) :
  deduplicate_requirements reqs = scan [] reqs.
Proof.
  unfold deduplicate_requirements.
  destruct reqs as [|r reqs]; [reflexivity|].
  change (∅ : gset string) with (seen_of []).
  by rewrite dedup_loop_scan.
Qed.

Lemma scan_app (l1 l2 : list ExtractedRequirement) :
  forall kept, scan kept (l1 ++ l2) = scan (scan kept l1) l2.
Proof.
  induction l1 as [|r l1 IH]; intros kept; simpl; [reflexivity|].
  destruct (absorbed kept r); apply IH.
Qed.

Lemma scan_extends (reqs : list ExtractedRequirement) :
  forall kept, exists out, scan kept reqs = kept ++ out /\ sublist out reqs.
Proof.
  induction reqs as [|r reqs IH]; intros kept; simpl.
  - exists []. split; [by rewrite app_nil_r|constructor].
  - destruct (absorbed kept r).
    + destruct (IH kept) as (out & -> & Hsub).
      exists out. split; [reflexivity|by constructor].
    + destruct (IH (kept ++ [r])) as (out & -> & Hsub).
      exists (r :: out). split; [by rewrite <- app_assoc|by constructor].
Qed.

(** [absorbed] looks at a requirement only through its normalized text. *)
Lemma absorbed_norm (kept : list ExtractedRequirement)
    (r r' : ExtractedRequirement) :
  norm r = norm r' -> absorbed kept r = absorbed kept r'.
Proof.
  intros Hn. unfold absorbed. rewrite Hn. f_equal.
  induction kept as [|k kept IH]; simpl; [reflexivity|].
  rewrite IH. f_equal.
  unfold _are_similar. unfold norm in Hn. by rewrite Hn.
Qed.

Lemma absorbed_app (kept more : list ExtractedRequirement)
    (r : ExtractedRequirement) :
  absorbed (kept ++ more) r = absorbed kept r || absorbed more r.
Proof.
  unfold absorbed. rewrite fmap_app, existsb_app.
  destruct (bool_decide (norm r ∈ norm <$> kept)) eqn:H1;
    destruct (bool_decide (norm r ∈ norm <$> more)) eqn:H2;
    [ rewrite bool_decide_eq_true_2
    | rewrite bool_decide_eq_true_2
    | rewrite bool_decide_eq_true_2
    | rewrite bool_decide_eq_false_2 ];
    try apply bool_decide_eq_true in H1; try apply bool_decide_eq_true in H2;
    try apply bool_decide_eq_false in H1; try apply bool_decide_eq_false in H2;
    rewrite ?elem_of_app; simpl; try tauto.
  all: repeat match goal with |- context [existsb ?f ?l] =>
                destruct (existsb f l) end; reflexivity.
Qed.

Lemma absorbed_self (r : ExtractedRequirement) : absorbed [r] r = true.
Proof.
  unfold absorbed. rewrite bool_decide_eq_true_2; [reflexivity|].
  simpl. apply list_elem_of_here.
Qed.

(** Whatever has been scanned is absorbed by what was kept. *)
Lemma scanned_absorbed (reqs : list ExtractedRequirement) :
  forall kept r, r ∈ reqs -> absorbed (scan kept reqs) r = true.
Proof.
  induction reqs as [|x reqs IH]; intros kept r Hin.
  - by apply elem_of_nil in Hin.
  - apply elem_of_cons in Hin as [->|Hin]; simpl.
    + destruct (absorbed kept x) eqn:Hx.
      * destruct (scan_extends reqs kept) as (out & -> & _).
        rewrite absorbed_app, Hx. reflexivity.
      * destruct (scan_extends reqs (kept ++ [x])) as (out & -> & _).
        rewrite !absorbed_app, absorbed_self.
        by rewrite orb_true_r.
    + destruct (absorbed kept x); by apply IH.
Qed.

Lemma clean_from_snoc (more : list ExtractedRequirement) :
  forall kept r,
    clean_from kept (more ++ [r]) <->
    clean_from kept more /\ absorbed (kept ++ more) r = false.
Proof.
  induction more as [|x more IH]; intros kept r; simpl.
  - rewrite app_nil_r. tauto.
  - rewrite IH. rewrite <- app_assoc. simpl. tauto.
Qed.

Lemma scan_clean (reqs : list ExtractedRequirement) :
  forall kept, clean_from [] kept -> clean_from [] (scan kept reqs).
Proof.
  induction reqs as [|r reqs IH]; intros kept Hk; simpl; [exact Hk|].
  destruct (absorbed kept r) eqn:Hr; [by apply IH|].
  apply IH. apply clean_from_snoc. by split.
Qed.

Lemma scan_of_clean (reqs : list ExtractedRequirement) :
  forall kept, clean_from kept reqs -> scan kept reqs = kept ++ reqs.
Proof.
  induction reqs as [|r reqs IH]; intros kept Hc; simpl in *.
  - by rewrite app_nil_r.
  - destruct Hc as [-> Hc]. rewrite (IH _ Hc), <- app_assoc. reflexivity.
Qed.

Lemma clean_from_split (l1 l2 : list ExtractedRequirement)
    (r : ExtractedRequirement) :
  forall kept,
    clean_from kept (l1 ++ r :: l2) -> absorbed (kept ++ l1) r = false.
Proof.
  induction l1 as [|x l1 IH]; intros kept; simpl.
  - rewrite app_nil_r. tauto.
  - intros [_ Hc]. apply IH in Hc. by rewrite <- app_assoc in Hc.
Qed.

Lemma existsb_false_elem {A} (f : A -> bool) (l : list A) (x : A) :
  existsb f l = false -> x ∈ l -> f x = false.
Proof.
  induction l as [|y l IH]; simpl; intros He Hin.
  - by apply elem_of_nil in Hin.
  - apply orb_false_iff in He as [Hy Hl].
    apply elem_of_cons in Hin as [->|Hin]; auto.
Qed.

Lemma not_absorbed_elem (kept : list ExtractedRequirement)
    (r k : ExtractedRequirement) :
  absorbed kept r = false -> k ∈ kept ->
  norm k ≠ norm r /\ _are_similar (text r) (text k) default_threshold = false.
Proof.
  unfold absorbed. intros Ha Hin.
  apply orb_false_iff in Ha as [Hn He].
  apply bool_decide_eq_false in Hn. split.
  - intros Heq. apply Hn. rewrite <- Heq. by apply list_elem_of_fmap_2.
  - exact (existsb_false_elem _ _ _ He Hin).
Qed.

Lemma kept_origin (reqs : list ExtractedRequirement) :
  forall kept r,
    r ∈ scan kept reqs ->
    r ∈ kept \/
    exists pre post, reqs = pre ++ r :: post /\
                     absorbed (scan kept pre) r = false.
Proof.
  induction reqs as [|x reqs IH]; intros kept r Hin; simpl in Hin.
  - by left.
  - destruct (absorbed kept x) eqn:Hx.
    + destruct (IH _ _ Hin) as [Hk|(pre & post & -> & Ha)]; [by left|].
      right. exists (x :: pre), post. split; [reflexivity|].
      simpl. by rewrite Hx.
    + destruct (IH _ _ Hin) as [Hk|(pre & post & -> & Ha)].
      * apply elem_of_app in Hk as [Hk|Hk]; [by left|].
        apply list_elem_of_singleton in Hk as ->.
        right. exists [], reqs. by split.
      * right. exists (x :: pre), post. split; [reflexivity|].
        simpl. by rewrite Hx.
Qed.

Lemma jaccard_sym (r k : ExtractedRequirement) : jaccard r k = jaccard k r.
Proof.
  unfold jaccard, similarity.
  assert (tokens r ∩ tokens k = tokens k ∩ tokens r) as -> by set_solver.
  assert (tokens r ∪ tokens k = tokens k ∪ tokens r) as -> by set_solver.
  reflexivity.
Qed.

Lemma similarity_empty_l (w : gset string) :
  (similarity ∅ w < default_threshold)%Q.
Proof.
  unfold similarity. rewrite union_empty_l_L, intersection_empty_l_L.
  rewrite size_empty.
  destruct (0 <? size w); unfold Qlt, default_threshold; simpl; lia.
Qed.

Lemma similar_iff_near (r k : ExtractedRequirement) :
  _are_similar (text r) (text k) default_threshold = true <->
  near_duplicate r k.
Proof.
  unfold _are_similar, near_duplicate, jaccard.
  fold (norm r) (norm k). fold (tokens r) (tokens k).
  destruct (bool_decide (tokens r = ∅)) eqn:Hr; simpl.
  { apply bool_decide_eq_true in Hr. split; [discriminate|tauto]. }
  destruct (bool_decide (tokens k = ∅)) eqn:Hk; simpl.
  { apply bool_decide_eq_true in Hk. split; [discriminate|tauto]. }
  apply bool_decide_eq_false in Hr, Hk.
  rewrite Qle_bool_iff. tauto.
Qed.

Lemma not_similar_below (r k : ExtractedRequirement) :
  _are_similar (text r) (text k) default_threshold = false ->
  (jaccard r k < default_threshold)%Q.
Proof.
  intros Hs. unfold jaccard.
  destruct (decide (tokens r = ∅)) as [->|Hr]; [apply similarity_empty_l|].
  destruct (decide (tokens k = ∅)) as [Hk|Hk].
  { fold (jaccard r k). rewrite jaccard_sym. unfold jaccard. rewrite Hk.
    apply similarity_empty_l. }
  apply Qnot_le_lt. intros Hle.
  assert (near_duplicate r k) as Hn by (by repeat split).
  apply similar_iff_near in Hn. congruence.
Qed.

Lemma absorbed_iff (kept : list ExtractedRequirement)
    (r : ExtractedRequirement) :
  absorbed kept r = true <->
  exists k, k ∈ kept /\ (norm k = norm r \/ near_duplicate r k).
Proof.
  unfold absorbed. rewrite orb_true_iff, bool_decide_eq_true.
  rewrite list_elem_of_fmap, existsb_exists. split.
  - intros [(k & Hn & Hin)|(k & Hin & Hs)].
    + exists k. split; [done|by left].
    + exists k. split; [by apply list_elem_of_In|].
      right. by apply similar_iff_near.
  - intros (k & Hin & [Hn|Hs]).
    + left. by exists k.
    + right. exists k. split; [by apply list_elem_of_In|].
      by apply similar_iff_near.
Qed.

(** Any two requirements of a clean list differ in normalized text and stay
    below the threshold. *)
Lemma clean_pairwise (out : list ExtractedRequirement) (i j : nat)
    (ri rj : ExtractedRequirement) :
  clean_from [] out -> i < j ->
  out !! i = Some ri -> out !! j = Some rj ->
  norm ri ≠ norm rj /\ (jaccard rj ri < default_threshold)%Q.
Proof.
  intros Hc Hlt Hi Hj.
  rewrite <- (take_drop_middle out j rj Hj) in Hc.
  apply clean_from_split in Hc. simpl in Hc.
  assert (ri ∈ take j out) as Hin.
  { apply list_elem_of_lookup. exists i. by rewrite lookup_take_lt. }
  destruct (not_absorbed_elem _ _ _ Hc Hin) as [Hn Hs].
  split; [exact Hn|by apply not_similar_below].
Qed.

Lemma filter_norm_none (out : list ExtractedRequirement) (t : string) :
  t ∉ norm <$> out -> filter (fun k => norm k = t) out = [].
Proof.
  induction out as [|k out IH]; intros Hn; [reflexivity|].
  rewrite fmap_cons, not_elem_of_cons in Hn. destruct Hn as [Hk Hn].
  rewrite filter_cons_False; [auto|congruence].
Qed.

Lemma filter_norm_le_1 (out : list ExtractedRequirement) (t : string) :
  NoDup (norm <$> out) ->
  length (filter (fun k => norm k = t) out) <= 1.
Proof.
  induction out as [|k out IH]; simpl; intros Hnd; [lia|].
  apply NoDup_cons in Hnd as [Hk Hnd].
  rewrite filter_cons. destruct (decide (norm k = t)) as [<-|_]; [|auto].
  simpl. rewrite (filter_norm_none out (norm k) Hk). simpl; lia.
Qed.

Lemma clean_NoDup (out : list ExtractedRequirement) :
  clean_from [] out -> NoDup (norm <$> out).
Proof.
  intros Hc. apply NoDup_alt. intros i j t Hi Hj.
  rewrite list_lookup_fmap in Hi, Hj.
  destruct (out !! i) as [ri|] eqn:Ei; [|discriminate].
  destruct (out !! j) as [rj|] eqn:Ej; [|discriminate].
  simpl in Hi, Hj. injection Hi as Hi. injection Hj as Hj.
  destruct (lt_eq_lt_dec i j) as [[Hlt| ->]|Hlt]; [|reflexivity|].
  - destruct (clean_pairwise out i j ri rj Hc Hlt Ei Ej) as [Hn _]. congruence.
  - destruct (clean_pairwise out j i rj ri Hc Hlt Ej Ei) as [Hn _]. congruence.
Qed.

Lemma deduplicate_clean (reqs : list ExtractedRequirement) :
  clean_from [] (deduplicate_requirements reqs).
Proof. rewrite deduplicate_scan. by apply scan_clean. Qed.

Lemma deduplicate_snoc (pre : list ExtractedRequirement)
    (r : ExtractedRequirement) :
  deduplicate_requirements (pre ++ [r]) =
  if absorbed (deduplicate_requirements pre) r
  then deduplicate_requirements pre
  else deduplicate_requirements pre ++ [r].
Proof.
  rewrite !deduplicate_scan, scan_app. simpl.
  by destruct (absorbed (scan [] pre) r).
Qed.

Lemma scan_same_group (rest : list ExtractedRequirement)
    (r : ExtractedRequirement) :
  Forall (fun r' => norm r' = norm r) rest -> scan [r] rest = [r].
Proof.
  induction 1 as [|r' rest Hn _ IH]; simpl; [reflexivity|].
  by rewrite (absorbed_norm [r] r' r Hn), absorbed_self.
Qed.

(** C10. The output of [deduplicate_requirements] is a subsequence of its
    input; each retained requirement is retained at its first occurrence (no
    earlier requirement has its normalized text, and it was appended when the
    scan reached it); any two retained requirements have distinct normalized
    texts and a token Jaccard similarity below the threshold; and running the
    function on its own output changes nothing. *)
Theorem deduplicate_idempotent_order_preserving
    (reqs : list ExtractedRequirement) :
  let out := deduplicate_requirements reqs in
  sublist out reqs
  /\ (forall r, r ∈ out ->
        exists pre post,
          reqs = pre ++ r :: post
          /\ (forall r', r' ∈ pre -> norm r' <> norm r)
          /\ deduplicate_requirements (pre ++ [r]) =
             deduplicate_requirements pre ++ [r])
  /\ (forall i j ri rj,
        i <> j -> out !! i = Some ri -> out !! j = Some rj ->
        norm ri <> norm rj /\ (jaccard ri rj < default_threshold)%Q)
  /\ deduplicate_requirements out = out.
Proof.
  intros out. subst out. repeat split.
  - rewrite deduplicate_scan.
    destruct (scan_extends reqs []) as (out & -> & Hsub). exact Hsub.
  - intros r Hin. rewrite deduplicate_scan in Hin.
    destruct (kept_origin _ _ _ Hin) as [Hk|(pre & post & Hreqs & Ha)].
    { by apply elem_of_nil in Hk. }
    exists pre, post. split; [exact Hreqs|]. split.
    + intros r' Hin' Hn.
      pose proof (scanned_absorbed pre [] r' Hin') as Hr'.
      rewrite (absorbed_norm _ _ _ Hn) in Hr'. congruence.
    + rewrite deduplicate_snoc, deduplicate_scan. by rewrite Ha.
  - destruct (lt_eq_lt_dec i j) as [[Hlt|Heq]|Hlt]; [|done|].
    + by destruct (clean_pairwise _ i j ri rj (deduplicate_clean reqs) Hlt).
    + destruct (clean_pairwise _ j i rj ri (deduplicate_clean reqs) Hlt)
        as [Hn _]; [done..|]. congruence.
  - destruct (lt_eq_lt_dec i j) as [[Hlt|Heq]|Hlt]; [|done|].
    + destruct (clean_pairwise _ i j ri rj (deduplicate_clean reqs) Hlt)
        as [_ Hs]; [done..|]. by rewrite jaccard_sym.
    + by destruct (clean_pairwise _ j i rj ri (deduplicate_clean reqs) Hlt).
  - rewrite (deduplicate_scan (deduplicate_requirements reqs)).
    apply (scan_of_clean _ []). apply deduplicate_clean.
Qed.

(** C6, as stated, fails where the similarity equals the threshold: the
    texts [a b c d] and [a b c d e] normalize differently and their Jaccard
    similarity is exactly 4/5, which does not exceed 0.8, yet the second
    requirement is dropped and its group is left without a representative. *)
Lemma deduplicate_drops_at_threshold :
  norm req_five_words <> norm req_four_words
  /\ (jaccard req_five_words req_four_words == 8 # 10)%Q
  /\ ~ (default_threshold < jaccard req_five_words req_four_words)%Q
  /\ deduplicate_requirements [req_four_words; req_five_words]
     = [req_four_words]
  /\ filter (fun k => norm k = norm req_five_words)
            (deduplicate_requirements [req_four_words; req_five_words]) = [].
Proof.
  split; [vm_compute; discriminate|].
  split; [vm_compute; reflexivity|].
  split; [vm_compute; discriminate|].
  split; vm_compute; reflexivity.
Qed.

(** C6, amended.  Of any group of requirements with one normalized text the
    output holds at most one; a requirement reached by the scan is appended
    exactly when it is not absorbed by what has been kept, that is when no
    kept requirement has its normalized text and it is a near-duplicate of
    none (both token sets non-empty and Jaccard similarity at least 0.8);
    what has been kept stays; and a list of requirements that all share the
    first one's normalized text, whatever their source files, is reduced to
    that first one. *)
Theorem deduplicate_one_per_group :
  (forall reqs t,
     length (filter (fun k => norm k = t) (deduplicate_requirements reqs)) <= 1)
  /\ (forall pre r,
        deduplicate_requirements (pre ++ [r]) =
        if absorbed (deduplicate_requirements pre) r
        then deduplicate_requirements pre
        else deduplicate_requirements pre ++ [r])
  /\ (forall kept r,
        absorbed kept r = true <->
        exists k, k ∈ kept /\ (norm k = norm r \/ near_duplicate r k))
  /\ (forall pre post,
        deduplicate_requirements pre `prefix_of`
        deduplicate_requirements (pre ++ post))
  /\ (forall r rest,
        Forall (fun r' => norm r' = norm r) rest ->
        deduplicate_requirements (r :: rest) = [r]).
Proof.
  split; [|split; [|split; [|split]]].
  - intros reqs t. apply filter_norm_le_1, clean_NoDup, deduplicate_clean.
  - apply deduplicate_snoc.
  - apply absorbed_iff.
  - intros pre post. rewrite !deduplicate_scan, scan_app.
    destruct (scan_extends post (scan [] pre)) as (out & -> & _).
    by exists out.
  - intros r rest Hall. rewrite deduplicate_scan. simpl.
    by apply scan_same_group.
Qed.

(** Two textually identical lines from different files: one is kept. *)
Example identical_lines_two_files :
  deduplicate_requirements
    [req_validate;
     sample "The system must validate input" "test1.md" 1 GENERAL]
  = [req_validate].
Proof. vm_compute. reflexivity. Qed.

End DedupFacts.

(** ** The aggregate document *)
Module FormatFacts.
Import Pathlib Regex RequirementsAggregator RequirementsSpec.

(** Only the requirements of type [EARS] reach the document; the others
    count in the total and are otherwise ignored. *)
Lemma format_as_ears_only_ears (now : string)
    (requirements : list ExtractedRequirement) :
  format_as_ears now requirements =
  Text.join newline
    (match filter (fun r => requirement_type r = EARS) requirements with
     | [] => preamble now (length requirements)
     | ears_reqs =>
         preamble now (length requirements) ++
         ["## EARS Format Requirements"; ""] ++
         concat (map ears_entry (enumerate 1 ears_reqs))
     end).
Proof.
  unfold format_as_ears, preamble, newline.
  destruct (filter _ requirements); reflexivity.
Qed.

(** C7 at a general requirement: the document counts it and says it holds
    all requirements, but neither its text nor its source file appears. *)
Theorem format_as_ears_drops_general_requirement :
  format_as_ears "2025-01-01 00:00:00" [req_validate] =
    Text.join newline (preamble "2025-01-01 00:00:00" 1)
  /\ Text.contains (text req_validate)
       (format_as_ears "2025-01-01 00:00:00" [req_validate]) = false
  /\ Text.contains (name (source_file req_validate))
       (format_as_ears "2025-01-01 00:00:00" [req_validate]) = false
  /\ Text.contains "**Total Requirements:** 1"
       (format_as_ears "2025-01-01 00:00:00" [req_validate]) = true.
Proof. repeat split; vm_compute; reflexivity. Qed.

(** An EARS requirement is rendered with its provenance. *)
Example format_as_ears_renders_ears :
  let r := sample "WHEN user logs in THEN system SHALL authenticate"
                  "test1.md" 1 EARS in
  let doc := format_as_ears "2025-01-01 00:00:00" [r; req_validate] in
  Text.contains "**Text:** WHEN user logs in THEN system SHALL authenticate" doc
    = true
  /\ Text.contains "**Source:** test1.md:1" doc = true
  /\ Text.contains "**Confidence:** 0.90" doc = true
  /\ Text.contains "validate input" doc = false.
Proof. repeat split; vm_compute; reflexivity. Qed.

End FormatFacts.

(** ** Classification scores *)
Module ClassifierFacts.
Import Classifier ClassifierSpec.


Lemma keyword_words_features :
  keyword_words "features" = ["feature"; "requirement"; "specification"].
Proof. reflexivity. Qed.
Lemma keyword_words_fixes :
  keyword_words "fixes" = ["error"; "issue"; "problem"].
Proof. reflexivity. Qed.
Lemma keyword_words_reference :
  keyword_words "reference" = ["documentation"; "guide"; "reference"].
Proof. reflexivity. Qed.
Lemma pattern_words_features :
  pattern_words "features" = ["as a"; "user story"; "system shall"].
Proof. reflexivity. Qed.
Lemma pattern_words_fixes :
  pattern_words "fixes" = ["fixed"; "resolved"; "bug"].
Proof. reflexivity. Qed.
Lemma pattern_words_reference :
  pattern_words "reference" = ["this document"; "api endpoint"; "usage example"].
Proof. reflexivity. Qed.

(** Turn the nine membership tests of the scoring into booleans. *)
Ltac generalize_tests filename content :=
  unfold score_file, filename_scoring, content_scoring, signals_for,
    filename_category, predict;
  rewrite ?keyword_words_features, ?keyword_words_fixes,
    ?keyword_words_reference, ?pattern_words_features, ?pattern_words_fixes,
    ?pattern_words_reference;
  generalize (any_in ["feature"; "spec"; "requirement"] (Text.lower filename));
  generalize (any_in ["fix"; "bug"; "issue"] (Text.lower filename));
  generalize (any_in ["api"; "guide"; "reference"] (Text.lower filename));
  generalize (any_in ["as a"; "user story"; "system shall"] (Text.lower content));
  generalize (any_in ["feature"; "requirement"; "specification"] (Text.lower content));
  generalize (any_in ["fixed"; "resolved"; "bug"] (Text.lower content));
  generalize (any_in ["error"; "issue"; "problem"] (Text.lower content));
  generalize (any_in ["this document"; "api endpoint"; "usage example"]
                (Text.lower content));
  generalize (any_in ["documentation"; "guide"; "reference"] (Text.lower content)).

Ltac category_cases H :=
  repeat (apply elem_of_cons in H as [->|H]); [..|by apply elem_of_nil in H].

Lemma score_file_keys (filename content : string) :
  map fst (score_file filename content) = categories.
Proof.
  generalize_tests filename content.
  intros [] [] [] [] [] [] [] [] []; reflexivity.
Qed.

Lemma score_is_total_weight (filename content category : string) :
  category ∈ categories ->
  score_of (score_file filename content) category =
  total_weight (signals_for filename content category).
Proof.
  intros Hc. unfold categories in Hc. category_cases Hc.
  all: generalize_tests filename content.
  all: intros [] [] [] [] [] [] [] [] []; vm_compute; reflexivity.
Qed.




(** The three files of the test. *)
Example test_classifier_logic_cases :
  predict "user_authentication_feature.md"
    "As a user, I want to authenticate securely. The system shall validate credentials."
    = Some ("features", 7)
  /\ predict "login_bug_fix.md"
       "Fixed critical bug in login system. Resolved authentication errors."
     = Some ("fixes", 9)
  /\ predict "api_reference.md"
       "This document describes the authentication API endpoints. Usage examples included."
     = Some ("reference", 7).
Proof. repeat split; vm_compute; reflexivity. Qed.

End ClassifierFacts.

(** ** Compliance score *)
Module ValidatorFacts.
Import StructureValidator.

Lemma ratio_one_iff (existing missing : nat) :
  0 < existing + missing ->
  ((Z.of_nat existing # Pos.of_nat (existing + missing)) == 1)%Q <->
  missing = 0.
Proof.
  intros Hpos. unfold Qeq; simpl.
  rewrite Z.mul_1_r, Z.mul_1_l.
  assert (Z.pos (Pos.of_nat (existing + missing))
          = Z.of_nat (existing + missing)) as ->.
  { destruct (existing + missing) as [|n] eqn:E; [lia|].
    rewrite <- E. rewrite <- positive_nat_Z, Nat2Pos.id; lia. }
  lia.
Qed.

(** C9. [generate_compliance_score] is the ratio of the directories found to
    the directories expected, existing/(existing+missing): it is 1 at (0,0)
    and at (n,n), 7/10 at (10,7), and it is 1 exactly when nothing is
    missing. *)
Theorem generate_compliance_score_ratio :
  (generate_compliance_score 0 0 == 1)%Q
  /\ (forall n, generate_compliance_score n n == 1)%Q
  /\ (generate_compliance_score 10 7 == 7 # 10)%Q
  /\ (forall existing missing,
        existing + missing <> 0 ->
        (compliance_score existing missing ==
         Z.of_nat existing # Pos.of_nat (existing + missing))%Q)
  /\ (forall existing missing,
        (compliance_score existing missing == 1)%Q <-> missing = 0).
Proof.
  split; [reflexivity|].
  split.
  { intros n. unfold generate_compliance_score.
    destruct (n =? 0) eqn:E; [reflexivity|].
    apply Nat.eqb_neq in E.
    pose proof (ratio_one_iff n 0) as H.
    rewrite Nat.add_0_r in H. apply H; [lia|reflexivity]. }
  split; [reflexivity|].
  split.
  { intros existing missing Hne.
    unfold compliance_score, generate_compliance_score.
    destruct (existing + missing =? 0) eqn:E; [|reflexivity].
    apply Nat.eqb_eq in E. lia. }
  intros existing missing.
  unfold compliance_score, generate_compliance_score.
  destruct (existing + missing =? 0) eqn:E.
  - apply Nat.eqb_eq in E. split; [lia|reflexivity].
  - apply Nat.eqb_neq in E. apply ratio_one_iff. lia.
Qed.

End ValidatorFacts.

(** ** Directory creation *)
Module CreatorFacts.
Import Pathlib FileSystem Models DirectoryCreator.

Lemma extends_refl (fs : filesystem) : extends fs fs.
Proof. split; auto. Qed.

Lemma extends_trans (fs1 fs2 fs3 : filesystem) :
  extends fs1 fs2 -> extends fs2 fs3 -> extends fs1 fs3.
Proof. intros [Hc1 H1] [Hc2 H2]. split; [congruence|auto]. Qed.

Lemma extends_node_at (fs fs' : filesystem) (p : Path) (n : node) :
  extends fs fs' -> node_at fs p = Some n -> node_at fs' p = Some n.
Proof.
  intros [Hc Hn]. unfold node_at, resolve. rewrite Hc.
  destruct (if is_absolute p then parts p else cwd fs ++ parts p);
    simpl; auto.
Qed.

Lemma extends_is_dir (fs fs' : filesystem) (p : Path) :
  extends fs fs' -> is_dir fs p = true -> is_dir fs' p = true.
Proof.
  intros He. unfold is_dir.
  destruct (node_at fs p) as [[|c]|] eqn:E; try discriminate.
  by rewrite (extends_node_at _ _ _ _ He E).
Qed.

Lemma extends_exists (fs fs' : filesystem) (p : Path) :
  extends fs fs' -> exists_ fs p = true -> exists_ fs' p = true.
Proof.
  intros He. unfold exists_.
  destruct (node_at fs p) as [n|] eqn:E; try discriminate.
  by rewrite (extends_node_at _ _ _ _ He E).
Qed.

Lemma is_dir_exists (fs : filesystem) (p : Path) :
  is_dir fs p = true -> exists_ fs p = true.
Proof. unfold is_dir, exists_. by destruct (node_at fs p) as [[|c]|]. Qed.

(** Making directories leaves every existing entry as it is. *)
Lemma mkdirs_keeps (rest : list string) :
  forall m pre m',
    mkdirs m pre rest = Some m' ->
    forall q n, m !! q = Some n -> m' !! q = Some n.
Proof.
  induction rest as [|c rest IH]; intros m pre m' Hmk q n Hq; simpl in Hmk.
  - by injection Hmk as <-.
  - destruct (m !! (pre ++ [c])) as [[|content]|] eqn:E; try discriminate.
    + eapply IH; eauto.
    + eapply IH; [exact Hmk|].
      rewrite lookup_insert_ne; [exact Hq|]. intros Heq. subst q. congruence.
Qed.

Lemma mkdir_parents_extends (fs fs' : filesystem) (p : Path) :
  mkdir_parents fs p = Some fs' -> extends fs fs'.
Proof.
  unfold mkdir_parents.
  destruct (mkdirs (nodes fs) [] (resolve fs p)) as [m|] eqn:E; [|discriminate].
  intros [= <-]. split; [reflexivity|]. simpl. eapply mkdirs_keeps; eauto.
Qed.

Lemma ensure_extends (fs fs' : filesystem) (directory : Path) (ok : bool) :
  ensure_directory_exists fs directory = (ok, fs') -> extends fs fs'.
Proof.
  unfold ensure_directory_exists.
  destruct (exists_ fs directory).
  - intros [= _ <-]. apply extends_refl.
  - destruct (mkdir_parents fs directory) as [fs1|] eqn:E.
    + intros [= _ <-]. by eapply mkdir_parents_extends.
    + intros [= _ <-]. apply extends_refl.
Qed.

Lemma ensure_ok_is_dir (fs fs' : filesystem) (directory : Path) :
  ensure_directory_exists fs directory = (true, fs') ->
  is_dir fs' directory = true.
Proof.
  unfold ensure_directory_exists.
  destruct (exists_ fs directory).
  - intros [= Hd <-]. exact Hd.
  - destruct (mkdir_parents fs directory) as [fs1|]; [|discriminate].
    intros [= Hok <-]. by apply andb_true_iff in Hok as [_ ?].
Qed.

Section loop.
Context {M : Type} `{BackupManager M}.
Variables (project_dir : Path) (backup_session : BackupSession).

Local Abbreviation step := (create_one project_dir backup_session).
Local Abbreviation target := (target_of project_dir).
Local Abbreviation already_exists_warning :=
  (DirectoryCreator.already_exists_warning project_dir).
Local Abbreviation not_a_directory_error :=
  (DirectoryCreator.not_a_directory_error project_dir).

(** What one turn of the loop can do. *)
Lemma create_one_cases (st : loop_state) (d : Path) :
  let st' := step st d in
  extends (st_fs st) (st_fs st') /\
  ( (is_dir (st_fs st) (target d) = true /\
     st_fs st' = st_fs st /\ st_manager st' = st_manager st /\
     st_created st' = st_created st /\ st_failed st' = st_failed st /\
     st_errors st' = st_errors st /\
     st_warnings st' = st_warnings st ++ [already_exists_warning d])
  \/ (is_file (st_fs st) (target d) = true /\
      st_fs st' = st_fs st /\ st_manager st' = st_manager st /\
      st_created st' = st_created st /\
      st_failed st' = st_failed st ++ [(target d, not_a_directory_error d)] /\
      st_errors st' = st_errors st ++ [not_a_directory_error d] /\
      st_warnings st' = st_warnings st)
  \/ (exists_ (st_fs st) (target d) = false /\
      is_dir (st_fs st') (target d) = true /\
      st_created st' = st_created st ++ [target d] /\
      st_failed st' = st_failed st /\ st_errors st' = st_errors st /\
      st_warnings st' = st_warnings st)
  \/ (exists_ (st_fs st) (target d) = false /\
      st_manager st' = st_manager st /\
      st_created st' = st_created st /\
      (exists msg, st_failed st' = st_failed st ++ [(target d, msg)] /\
                   st_errors st' = st_errors st ++ [msg]) /\
      st_warnings st' = st_warnings st) ).
Proof.
  unfold create_one, DirectoryCreator.already_exists_warning,
    DirectoryCreator.not_a_directory_error.
  destruct (exists_ (st_fs st) (target d)) eqn:Hex.
  - destruct (is_dir (st_fs st) (target d)) eqn:Hdir; simpl.
    + split; [apply extends_refl|]. left. repeat split; reflexivity.
    + split; [apply extends_refl|]. right; left.
      repeat split; try reflexivity.
      unfold is_file, is_dir, exists_ in *.
      by destruct (node_at (st_fs st) (target d)) as [[|c]|].
  - destruct (ensure_directory_exists (st_fs st) (target d)) as [ok fs'] eqn:He.
    pose proof (ensure_extends _ _ _ _ He) as Hext.
    destruct ok; simpl.
    + split; [exact Hext|]. right; right; left.
      repeat split; try reflexivity. by apply ensure_ok_is_dir in He.
    + split; [exact Hext|]. right; right; right.
      repeat split; try reflexivity. eexists; split; reflexivity.
Qed.

Lemma loop_extends (dirs : list Path) :
  forall st, extends (st_fs st) (st_fs (fold_left step dirs st)).
Proof.
  induction dirs as [|d dirs IH]; intros st; simpl; [apply extends_refl|].
  eapply extends_trans; [|apply IH].
  apply (create_one_cases st d).
Qed.

Lemma loop_grows (dirs : list Path) :
  forall st,
    let st' := fold_left step dirs st in
    st_created st `prefix_of` st_created st' /\
    st_failed st `prefix_of` st_failed st' /\
    st_errors st `prefix_of` st_errors st' /\
    st_warnings st `prefix_of` st_warnings st'.
Proof.
  induction dirs as [|d dirs IH]; intros st; simpl; [done|].
  destruct (IH (step st d)) as (Hc & Hf & He & Hw).
  destruct (create_one_cases st d) as [_ Hcases].
  assert (forall {A} (l k m : list A), l ++ k `prefix_of` m -> l `prefix_of` m)
    as Hpre.
  { intros A l k m [t ->]. exists (k ++ t). by rewrite app_assoc. }
  destruct Hcases as
    [(_ & _ & _ & Ec & Ef & Ee & Ew)
    |[(_ & _ & _ & Ec & Ef & Ee & Ew)
    |[(_ & _ & Ec & Ef & Ee & Ew)
    |(_ & _ & Ec & (msg & Ef & Ee) & Ew)]]];
    rewrite Ec in Hc; rewrite Ef in Hf; rewrite Ee in He; rewrite Ew in Hw;
    repeat split; eauto.
Qed.



Lemma prefix_nil_inv {A} (l : list A) (x : A) : ~ (l ++ [x]) `prefix_of` [].
Proof. intros [t Ht]. by destruct l. Qed.

(** A run without failure leaves every target a directory. *)
Lemma loop_all_dirs (dirs : list Path) :
  forall st,
    st_failed (fold_left step dirs st) = [] ->
    forall d, d ∈ dirs ->
      is_dir (st_fs (fold_left step dirs st)) (target d) = true.
Proof.
  induction dirs as [|d0 dirs IH]; intros st Hnone d Hin; simpl in *.
  - by apply elem_of_nil in Hin.
  - apply elem_of_cons in Hin as [->|Hin]; [|by apply IH].
    destruct (loop_grows dirs (step st d0)) as (_ & Hf & _ & _).
    rewrite Hnone in Hf.
    pose proof (loop_extends dirs (step st d0)) as Hext.
    destruct (create_one_cases st d0) as [Hext0 Hcases].
    destruct Hcases as
      [(Hdir & _)
      |[(_ & _ & _ & _ & Ef & _)
      |[(_ & Hdir & _)
      |(_ & _ & _ & (msg & Ef & _) & _)]]].
    + eapply extends_is_dir; [|exact Hdir].
      eapply extends_trans; eauto.
    + rewrite Ef in Hf. by apply prefix_nil_inv in Hf.
    + eapply extends_is_dir; eauto.
    + rewrite Ef in Hf. by apply prefix_nil_inv in Hf.
Qed.

(** Over targets that are all directories the loop only warns. *)
Lemma loop_only_warns (dirs : list Path) :
  forall st,
    (forall d, d ∈ dirs -> is_dir (st_fs st) (target d) = true) ->
    fold_left step dirs st =
    {| st_fs := st_fs st; st_manager := st_manager st;
       st_created := st_created st; st_failed := st_failed st;
       st_errors := st_errors st;
       st_warnings := st_warnings st ++ map already_exists_warning dirs |}.
Proof.
  induction dirs as [|d dirs IH]; intros st Hall; simpl.
  - rewrite app_nil_r. by destruct st.
  - assert (is_dir (st_fs st) (target d) = true) as Hd
      by apply Hall, list_elem_of_here.
    assert (step st d =
            {| st_fs := st_fs st; st_manager := st_manager st;
               st_created := st_created st; st_failed := st_failed st;
               st_errors := st_errors st;
               st_warnings := st_warnings st ++ [already_exists_warning d] |})
      as ->.
    { unfold create_one. by rewrite (is_dir_exists _ _ Hd), Hd. }
    rewrite IH; simpl.
    + by rewrite <- app_assoc.
    + intros d' Hd'. apply Hall. by apply list_elem_of_further.
Qed.



End loop.

(** C3. After a call of [create_missing_directories] that returned with
    [success = True], the same call on the resulting filesystem changes
    neither the filesystem nor the backup manager, creates nothing, fails
    nothing, and warns once per directory that it already exists. *)
Theorem create_missing_directories_idempotent
    {M : Type} `{BackupManager M}
    (fs fs1 : filesystem) (manager manager1 : M) (project_dir : Path)
    (missing_dirs : list Path) (backup_session : BackupSession)
    (r1 : CreationResult) :
  create_missing_directories fs manager project_dir missing_dirs backup_session
    = Returned (fs1, manager1, r1) ->
  success r1 = true ->
  create_missing_directories fs1 manager1 project_dir missing_dirs
                             backup_session
    = Returned (fs1, manager1,
                {| created_directories := [];
                   failed_directories := [];
                   success := true;
                   errors := [];
                   warnings :=
                     map (already_exists_warning project_dir) missing_dirs |}).
Proof.
  unfold create_missing_directories.
  destruct (exists_ fs project_dir) eqn:Hroot; simpl; [|discriminate].
  intros [= <- <- <-] Hok.
  set (st := fold_left (create_one project_dir backup_session) missing_dirs
                       (initial_state fs manager)) in *.
  assert (st_failed st = []) as Hnone.
  { unfold result_of in Hok. simpl in Hok.
    apply bool_decide_eq_true in Hok. by destruct (st_failed st). }
  pose proof (loop_extends project_dir backup_session missing_dirs
                (initial_state fs manager)) as Hext.
  fold st in Hext. simpl in Hext.
  rewrite (extends_exists _ _ _ Hext Hroot). simpl.
  rewrite loop_only_warns.
  - reflexivity.
  - simpl. intros d Hd.
    by apply (loop_all_dirs project_dir backup_session missing_dirs
                (initial_state fs manager)).
Qed.


(** The two calls of the test: the first creates the three directories, the
    second finds them. *)
Lemma create_missing_directories_idempotent_witness :
  exists fs1 manager1 r1,
    create_missing_directories Samples.sample_fs Samples.sample_manager
      Samples.sample_project Samples.sample_dirs Samples.sample_session
      = Returned (fs1, manager1, r1)
    /\ success r1 = true
    /\ length (created_directories r1) = 3
    /\ create_missing_directories fs1 manager1
         Samples.sample_project Samples.sample_dirs Samples.sample_session
       = Returned (fs1, manager1,
                   {| created_directories := [];
                      failed_directories := [];
                      success := true;
                      errors := [];
                      warnings :=
                        ["Directory already exists: project/specs";
                         "Directory already exists: project/specs/features";
                         "Directory already exists: project/docs"] |}).
Proof.
  eexists _, _, _.
  split; [vm_compute; reflexivity|].
  split; [reflexivity|].
  split; [reflexivity|].
  eapply create_missing_directories_idempotent
    with (fs := Samples.sample_fs) (manager := Samples.sample_manager).
  - vm_compute; reflexivity.
  - reflexivity.
Defined.

(** The file in the way, between two good targets. *)
Example conflict_does_not_stop_the_batch :
  match create_missing_directories Samples.sample_fs Samples.sample_manager
          Samples.sample_project
          [rel ["specs"]; rel ["conflict"]; rel ["docs"]]
          Samples.sample_session with
  | Returned (_, manager', r) =>
      created_directories r = [rel ["project"; "specs"]; rel ["project"; "docs"]]
      /\ errors r = ["Path exists but is not a directory: project/conflict"]
      /\ success r = false
      /\ length (operations manager') = 2
  | Raised _ => False
  end.
Proof. vm_compute. repeat split. Qed.

End CreatorFacts.

(** ** Reversing a log *)
Module UndoFacts.
Import Pathlib FileSystem Models DirectoryCreator BackupManager Reorganizer
  ReorganizerSpec.

Lemma well_formed_no_root (m : gmap (list string) node) :
  well_formed m -> m !! [] = None.
Proof.
  intros Hwf. destruct (m !! []) as [n|] eqn:E; [|reflexivity].
  destruct (Hwf _ _ E) as (p & Hp & _). discriminate.
Qed.

Lemma lookup_node_key (m : gmap (list string) node) (q : list string) :
  q <> [] -> lookup_node m q = m !! q.
Proof. by destruct q. Qed.

Lemma lookup_node_wf (m : gmap (list string) node) (q : list string) (n : node) :
  well_formed m -> m !! q = Some n -> lookup_node m q = Some n.
Proof.
  intros Hwf Hq. destruct q; [|exact Hq].
  by rewrite (well_formed_no_root m Hwf) in Hq.
Qed.







Lemma resolve_cwd (fs fs' : filesystem) (p : Path) :
  cwd fs' = cwd fs -> resolve fs' p = resolve fs p.
Proof. intros Hc. unfold resolve. by rewrite Hc. Qed.



Lemma replay_snoc (fs fs1 fs2 : filesystem) (ops : list FileOperation)
    (op : FileOperation) :
  replay fs ops fs1 -> reversible fs1 op fs2 -> replay fs (ops ++ [op]) fs2.
Proof.
  induction 1 as [fs|fs op0 fsa ops fsb Hrev Hrep IH]; intros Hop; simpl.
  - econstructor; [exact Hop|constructor].
  - econstructor; [exact Hrev|by apply IH].
Qed.



Lemma replay_cwd (fs fs' : filesystem) (ops : list FileOperation) :
  replay fs ops fs' -> cwd fs' = cwd fs.
Proof.
  induction 1 as [fs|fs op fs1 ops fs2 Hrev Hrep IH]; [done|].
  destruct Hrev as [Hc _]. congruence.
Qed.


End UndoFacts.

(** ** Making directories in a well-formed tree *)
Module MkdirFacts.
Import Pathlib FileSystem Models DirectoryCreator BackupManager Reorganizer
  ReorganizerSpec UndoFacts.










End MkdirFacts.

(** ** The directories a run creates *)
Module CreationFacts.
Import Pathlib FileSystem Models DirectoryCreator BackupManager Reorganizer
  ReorganizerSpec UndoFacts MkdirFacts CreatorFacts.



Lemma extends_cwd (fs fs' : filesystem) : extends fs fs' -> cwd fs' = cwd fs.
Proof. by intros [? _]. Qed.





Section creation.
Context {M : Type} `{BackupManager M}.
Variables (project_dir : Path) (backup_session : BackupSession).

Local Abbreviation step := (create_one project_dir backup_session).
Local Abbreviation sid := (session_id backup_session).



End creation.

End CreationFacts.

(** ** The directories a template asks for *)
Module TemplateFacts.
Import Pathlib FileSystem Models DirectoryCreator BackupManager Reorganizer
  ReorganizerSpec UndoFacts MkdirFacts CreatorFacts CreationFacts.









End TemplateFacts.

(** ** Reorganize, then undo *)
Module RoundTripFacts.
Import Pathlib FileSystem Models DirectoryCreator BackupManager Reorganizer
  ReorganizerSpec UndoFacts MkdirFacts CreatorFacts CreationFacts TemplateFacts.







Section run.
Variable classify : Path -> string -> ClassifiedFile.
Variable glob_match : string -> string -> bool.


End run.

End RoundTripFacts.

(** ** The round trip and the dry run *)
Module RunFacts.
Import Pathlib FileSystem Models DirectoryCreator BackupManager Reorganizer
  ReorganizerSpec UndoFacts RoundTripFacts ReorganizerSamples.



(** C2. A dry run returns the filesystem and the backup store it was given:
    no path is added, removed or rewritten and no session is created.  It
    still reports the plan: the same moves and the same number of classified
    files as the run that executes. *)
Theorem dry_run_changes_nothing
    (classify : Path -> string -> ClassifiedFile)
    (glob_match : string -> string -> bool)
    (fs : filesystem) (st : store) (project_dir : Path)
    (config : NameOnlyConfig) :
  dry_run config = true ->
  let '(fs', st', result) :=
    reorganize_repository classify glob_match fs st project_dir config in
  let '(_, _, executed) :=
    reorganize_repository classify glob_match fs st project_dir
      (with_dry_run config false) in
  fs' = fs /\ st' = st
  /\ list_backup_sessions st' = list_backup_sessions st
  /\ planned_moves result = planned_moves executed
  /\ files_classified result = files_classified executed.
Proof.
  intros Hdry. unfold reorganize_repository. simpl.
  destruct (validate_structure fs project_dir (template config))
    as [validation|message] eqn:Hv; [|done].
  rewrite Hdry.
  destruct (backup_enabled config).
  - unfold create_backup.
    destruct (create_missing_directories _ _ _ _ _) as [[[fs1 m1] c1]|msg];
      repeat split; reflexivity.
  - destruct (create_missing_directories _ _ _ _ _) as [[[fs1 m1] c1]|msg];
      repeat split; reflexivity.
Qed.

(** The sample project under a dry run. *)
Lemma dry_run_changes_nothing_witness :
  let '(fs', st', result) :=
    reorganize_repository sample_classify sample_glob project_fs empty_store
      project (sample_config true) in
  fs' = project_fs /\ st' = empty_store
  /\ length (planned_moves result) = 2
  /\ length (warnings result) = 3.
Proof.
  pose proof (dry_run_changes_nothing sample_classify sample_glob project_fs
                empty_store project (sample_config true) eq_refl) as Hdry.
  destruct (reorganize_repository sample_classify sample_glob project_fs
              empty_store project (sample_config true))
    as [[fs' st'] result] eqn:Hrun.
  destruct (reorganize_repository sample_classify sample_glob project_fs
              empty_store project (with_dry_run (sample_config true) false))
    as [[fs2 st2] executed].
  destruct Hdry as (Hfs & Hst & _).
  split; [exact Hfs|]. split; [exact Hst|].
  vm_compute in Hrun. injection Hrun as _ _ <-. split; reflexivity.
Defined.

End RunFacts.

(** ** More on extraction *)
Module ExtractionMore.
Import Pathlib Regex RequirementsAggregator RequirementsSpec AggregatorNotions
  ExtractionFacts.

Lemma rstrip_idempotent (s : string) : Text.rstrip (Text.rstrip s) = Text.rstrip s.
Proof.
  induction s as [|c s IH]; simpl; [reflexivity|].
  destruct (Text.rstrip s) as [|c' t] eqn:E.
  - destruct (Text.isspace c) eqn:Hc; simpl; [reflexivity|]. by rewrite Hc.
  - simpl. simpl in IH. by rewrite IH.
Qed.

Lemma lstrip_starts (s : string) :
  match Text.lstrip s with
  | EmptyString => True
  | String c _ => Text.isspace c = false
  end.
Proof.
  induction s as [|c s IH]; simpl; [done|].
  destruct (Text.isspace c) eqn:Hc; [exact IH|]. simpl. exact Hc.
Qed.

Lemma lstrip_rstrip (t : string) :
  match t with
  | EmptyString => True
  | String c _ => Text.isspace c = false
  end ->
  Text.lstrip (Text.rstrip t) = Text.rstrip t.
Proof.
  destruct t as [|c t]; [reflexivity|]. intros Hc. simpl.
  destruct (Text.rstrip t); simpl; rewrite ?Hc; simpl; rewrite ?Hc;
    reflexivity.
Qed.

(** [strip] is idempotent. *)
Lemma strip_idempotent (s : string) : Text.strip (Text.strip s) = Text.strip s.
Proof.
  unfold Text.strip.
  rewrite (lstrip_rstrip (Text.lstrip s) (lstrip_starts s)).
  apply rstrip_idempotent.
Qed.

Lemma enumerate_elem {A} (l : list A) :
  forall start n x,
    (n, x) ∈ enumerate start l <-> start <= n /\ l !! (n - start) = Some x.
Proof.
  induction l as [|y l IH]; intros start n x; simpl.
  - split; [intros H; by apply elem_of_nil in H|intros [_ H]; done].
  - rewrite elem_of_cons, IH. split.
    + intros [[= -> ->]|[Hle Hl]].
      * split; [lia|]. by rewrite Nat.sub_diag.
      * split; [lia|]. replace (n - start) with (S (n - S start)) by lia.
        exact Hl.
    + intros [Hle Hl]. destruct (decide (n = start)) as [->|Hne].
      * left. rewrite Nat.sub_diag in Hl. by injection Hl as ->.
      * right. split; [lia|].
        replace (n - start) with (S (n - S start)) in Hl by lia. exact Hl.
Qed.

Lemma line_record_fields (file_path : Path) (item : nat * string)
    (r : ExtractedRequirement) :
  line_record file_path item = Some r ->
  source_file r = file_path /\ line_number r = fst item
  /\ text r = Text.strip (snd item) /\ text r <> ""
  /\ confidence r = family_confidence (requirement_type r)
  /\ winning_family (text r) = Some (requirement_type r)
  /\ context r = _get_context (text r) 50.
Proof.
  unfold line_record.
  destruct (decide (Text.strip (snd item) = "")) as [|Hne]; [discriminate|].
  destruct (winning_family (Text.strip (snd item))) as [ty|] eqn:Hw;
    [|discriminate].
  intros [= <-]. simpl. rewrite strip_idempotent. by repeat split.
Qed.

Lemma omap_line_numbers (file_path : Path) (lines : list string) :
  forall start,
    Forall (fun n => start <= n)
      (line_number <$> omap (line_record file_path) (enumerate start lines))
    /\ StronglySorted lt
         (line_number <$> omap (line_record file_path) (enumerate start lines)).
Proof.
  induction lines as [|raw lines IH]; intros start; csimpl.
  - split; constructor.
  - destruct (IH (S start)) as [Hge Hsorted].
    destruct (line_record file_path (start, raw)) as [r|] eqn:Hr; csimpl.
    + apply line_record_fields in Hr as (_ & Hn & _). simpl in Hn.
      rewrite Hn. split.
      * constructor; [lia|]. eapply Forall_impl; [exact Hge|].
        simpl. intros; lia.
      * constructor; [exact Hsorted|].
        eapply Forall_impl; [exact Hge|]. simpl. intros; lia.
    + split; [|exact Hsorted].
      eapply Forall_impl; [exact Hge|]. simpl. intros; lia.
Qed.

(** X1. Every record says where it comes from: the file it was given, a line
    number counted from 1 within the content, the stripped text of that very
    line, which is not empty, the context cut from that text, and the
    confidence of its type; the records come in increasing line order. *)
Theorem extracted_records_point_to_their_line
    (content : string) (file_path : Path) :
  let lines := Text.split "010" content in
  Forall (fun r =>
            source_file r = file_path
            /\ 1 <= line_number r <= length lines
            /\ Text.strip <$> lines !! (line_number r - 1) = Some (text r)
            /\ text r <> ""
            /\ context r = _get_context (text r) 50
            /\ confidence r = family_confidence (requirement_type r))
         (extract_requirements content file_path)
  /\ StronglySorted lt
       (line_number <$> extract_requirements content file_path).
Proof.
  intros lines.
  assert (extract_requirements content file_path =
          omap (line_record file_path) (enumerate 1 lines)) as ->.
  { unfold extract_requirements. apply extract_loop. }
  split; [|apply omap_line_numbers].
  apply Forall_forall. intros r Hin.
  apply list_elem_of_omap in Hin as ([n raw] & Hitem & Hr).
  apply enumerate_elem in Hitem as [Hle Hraw].
  apply line_record_fields in Hr as (Hs & Hn & Ht & Hne & Hc & _ & Hctx).
  simpl in Hn, Ht. rewrite Hn.
  pose proof (lookup_lt_Some _ _ _ Hraw) as Hlt.
  repeat split; try done; try lia.
  rewrite Hraw. simpl. by rewrite Ht.
Qed.

Lemma append_nil_l (b : string) : "" +:+ b = b.
Proof. reflexivity. Qed.

Lemma append_cons (c : ascii) (a b : string) :
  String c a +:+ b = String c (a +:+ b).
Proof. reflexivity. Qed.

Lemma split_nonempty (sep : ascii) (s : string) : Text.split sep s <> [].
Proof.
  induction s as [|c s IH]; simpl; [done|].
  destruct (Ascii.eqb c sep); [done|]. by destruct (Text.split sep s).
Qed.

(** Splitting at a separator that was put between two strings. *)
Lemma split_append (sep : ascii) (a b : string) :
  Text.split sep (a +:+ String sep b) = Text.split sep a ++ Text.split sep b.
Proof.
  induction a as [|c a IH].
  - rewrite append_nil_l. simpl. by rewrite Ascii.eqb_refl.
  - rewrite append_cons. simpl. rewrite IH.
    destruct (Ascii.eqb c sep); [reflexivity|].
    pose proof (split_nonempty sep a) as Hne.
    by destruct (Text.split sep a).
Qed.

Lemma enumerate_app {A} (l1 l2 : list A) :
  forall start,
    enumerate start (l1 ++ l2) =
    enumerate start l1 ++ enumerate (start + length l1) l2.
Proof.
  induction l1 as [|x l1 IH]; intros start; simpl.
  - by rewrite Nat.add_0_r.
  - rewrite IH. do 3 f_equal. lia.
Qed.

Lemma line_record_shift (file_path : Path) (n k : nat) (raw : string) :
  line_record file_path (n + k, raw) =
  renumber k <$> line_record file_path (n, raw).
Proof.
  unfold line_record. simpl.
  destruct (decide (Text.strip raw = "")); [reflexivity|].
  by destruct (winning_family (Text.strip raw)).
Qed.

Lemma omap_enumerate_shift (file_path : Path) (k : nat) (lines : list string) :
  forall start,
    omap (line_record file_path) (enumerate (start + k) lines) =
    renumber k <$> omap (line_record file_path) (enumerate start lines).
Proof.
  induction lines as [|raw lines IH]; intros start; csimpl; [reflexivity|].
  rewrite line_record_shift.
  change (S (start + k)) with (S start + k). rewrite IH.
  by destruct (line_record file_path (start, raw)).
Qed.

(** X2. The requirements of two contents joined by a newline are those of
    the first followed by those of the second, the latter numbered on from
    the lines of the first. *)
Theorem extract_requirements_of_joined_contents
    (first second : string) (file_path : Path) :
  extract_requirements (first +:+ String "010" second) file_path =
  extract_requirements first file_path ++
  (renumber (length (Text.split "010" first)) <$>
     extract_requirements second file_path).
Proof.
  unfold extract_requirements. rewrite !extract_loop. simpl.
  rewrite split_append, enumerate_app, omap_app.
  f_equal. apply (omap_enumerate_shift file_path _ _ 1).
Qed.

Lemma length_append (a b : string) :
  String.length (a +:+ b) = String.length a + String.length b.
Proof.
  induction a as [|c a IH]; [reflexivity|].
  rewrite append_cons. simpl. by rewrite IH.
Qed.

Lemma length_text_take (k : nat) (s : string) :
  String.length (Text.take k s) = k `min` String.length s.
Proof.
  revert s. induction k as [|k IH]; intros [|c s]; simpl; try reflexivity.
  by rewrite IH.
Qed.

(** X3. With room for the three dots, [_get_context] never returns more than
    [max_length] characters: a line that fits is returned as it is, a longer
    one is cut to its first [max_length - 3] characters followed by three
    dots, [max_length] characters in all. *)
Theorem get_context_fits (line : string) (max_length : nat) :
  3 <= max_length ->
  String.length (_get_context line max_length) <= max_length
  /\ (String.length line <= max_length ->
      _get_context line max_length = line)
  /\ (max_length < String.length line ->
      _get_context line max_length
        = Text.take (max_length - 3) line +:+ "..."
      /\ String.length (_get_context line max_length) = max_length).
Proof.
  intros Hroom. unfold _get_context.
  destruct (String.length line <=? max_length) eqn:E.
  - apply Nat.leb_le in E. repeat split; [exact E|lia..].
  - apply Nat.leb_gt in E.
    rewrite length_append, length_text_take. simpl.
    repeat split; lia.
Qed.

(** A line of sixty characters, cut to fifty. *)
Lemma get_context_fits_witness :
  String.length
    (_get_context
       "WHEN the user submits the form THEN the system SHALL store it"
       50) <= 50
  /\ _get_context
       "WHEN the user submits the form THEN the system SHALL store it" 50
     = "WHEN the user submits the form THEN the system ...".
Proof.
  destruct (get_context_fits
              "WHEN the user submits the form THEN the system SHALL store it"
              50) as (Hlen & _ & Hcut); [lia|].
  split; [exact Hlen|].
  destruct Hcut as [-> _]; [vm_compute; lia|reflexivity].
Defined.

End ExtractionMore.

(** ** More on normalization and similarity *)
Module SimilarityMore.
Import Pathlib Regex RequirementsAggregator RequirementsSpec AggregatorNotions
  DedupFacts.

Lemma lower_char_not_upper (c : ascii) : not_upper (Text.lower_char c) = true.
Proof. destruct c as [[] [] [] [] [] [] [] []]; reflexivity. Qed.

Lemma kept_char_normal (c : ascii) :
  collapsed_char c = true -> Text.isword c || Text.isspace c = true ->
  normal_char c = true.
Proof. destruct c as [[] [] [] [] [] [] [] []]; vm_compute; congruence. Qed.

Lemma all_chars_lower (s : string) : all_chars not_upper (Text.lower s) = true.
Proof.
  induction s as [|c s IH]; simpl; [reflexivity|].
  by rewrite lower_char_not_upper, IH.
Qed.

Lemma all_chars_lstrip (p : ascii -> bool) (s : string) :
  all_chars p s = true -> all_chars p (Text.lstrip s) = true.
Proof.
  induction s as [|c s IH]; simpl; [done|].
  intros [Hc Hs]%andb_true_iff.
  destruct (Text.isspace c); [auto|]. simpl. by rewrite Hc, Hs.
Qed.

Lemma all_chars_rstrip (p : ascii -> bool) (s : string) :
  all_chars p s = true -> all_chars p (Text.rstrip s) = true.
Proof.
  induction s as [|c s IH]; simpl; [done|].
  intros [Hc Hs]%andb_true_iff. specialize (IH Hs).
  destruct (Text.rstrip s) as [|c' t].
  - destruct (Text.isspace c); simpl; [reflexivity|]. by rewrite Hc.
  - simpl in *. by rewrite Hc, IH.
Qed.

Lemma all_chars_collapse (s : string) :
  all_chars not_upper s = true ->
  forall in_run,
    all_chars collapsed_char (Text.collapse_ws_go in_run s) = true.
Proof.
  induction s as [|c s IH]; simpl; [done|].
  intros [Hc Hs]%andb_true_iff in_run.
  destruct (Text.isspace c) eqn:Hsp.
  - destruct in_run; simpl; auto.
  - simpl. rewrite IH by done. unfold collapsed_char. by rewrite Hc, Hsp.
Qed.

Lemma all_chars_drop_punct (s : string) :
  all_chars collapsed_char s = true ->
  all_chars normal_char (Text.drop_punct s) = true.
Proof.
  induction s as [|c s IH]; simpl; [done|].
  intros [Hc Hs]%andb_true_iff.
  destruct (Text.isword c || Text.isspace c) eqn:Hk; [|auto].
  simpl. by rewrite (kept_char_normal c Hc Hk), IH.
Qed.

(** X4. A normalized text holds nothing but lowercase letters, digits,
    underscores and plain spaces. *)
Theorem normalized_text_alphabet (t : string) :
  all_chars normal_char (_normalize_text t) = true.
Proof.
  unfold _normalize_text, Text.strip, Text.collapse_ws.
  apply all_chars_drop_punct, all_chars_collapse.
  apply all_chars_rstrip, all_chars_lstrip, all_chars_lower.
Qed.

(** Normalizing twice is not normalizing once: stripped punctuation leaves
    its spaces behind. *)
Example normalize_not_idempotent :
  _normalize_text "a , b" = "a  b"
  /\ _normalize_text (_normalize_text "a , b") = "a b".
Proof. split; reflexivity. Qed.

Lemma similarity_sym (w1 w2 : gset string) : similarity w1 w2 = similarity w2 w1.
Proof.
  unfold similarity.
  assert (w1 ∩ w2 = w2 ∩ w1) as -> by set_solver.
  assert (w1 ∪ w2 = w2 ∪ w1) as -> by set_solver.
  reflexivity.
Qed.

Lemma similarity_range (w1 w2 : gset string) :
  (0 <= similarity w1 w2 <= 1)%Q.
Proof.
  unfold similarity.
  destruct (0 <? size (w1 ∪ w2)) eqn:E; [|split; unfold Qle; simpl; lia].
  apply Nat.ltb_lt in E.
  assert (size (w1 ∩ w2) <= size (w1 ∪ w2)) as Hle
    by (apply subseteq_size; set_solver).
  unfold Qle; simpl. split; [lia|].
  rewrite Z.mul_1_r, Z.mul_1_l.
  assert (Z.pos (Pos.of_nat (size (w1 ∪ w2))) = Z.of_nat (size (w1 ∪ w2)))
    as ->.
  { rewrite <- positive_nat_Z, Nat2Pos.id; lia. }
  lia.
Qed.

(** X5. [_are_similar] does not depend on the order of its two texts, it is
    false as soon as one of them has no token, and the similarity it
    compares with the threshold lies between 0 and 1. *)
Theorem are_similar_symmetric (text1 text2 : string) (threshold : Q) :
  _are_similar text1 text2 threshold = _are_similar text2 text1 threshold
  /\ (_are_similar text1 text2 threshold =
      negb (bool_decide (word_set (_normalize_text text1) = ∅))
      && negb (bool_decide (word_set (_normalize_text text2) = ∅))
      && Qle_bool threshold
           (similarity (word_set (_normalize_text text1))
                       (word_set (_normalize_text text2))))
  /\ (0 <= similarity (word_set (_normalize_text text1))
                      (word_set (_normalize_text text2)) <= 1)%Q.
Proof.
  split; [|split; [|apply similarity_range]].
  - unfold _are_similar.
    rewrite (similarity_sym (word_set (_normalize_text text1))).
    destruct (bool_decide (word_set (_normalize_text text1) = ∅));
      destruct (bool_decide (word_set (_normalize_text text2) = ∅));
      reflexivity.
  - unfold _are_similar.
    destruct (bool_decide (word_set (_normalize_text text1) = ∅));
      destruct (bool_decide (word_set (_normalize_text text2) = ∅));
      reflexivity.
Qed.

(** X6. A text with at least one token is similar to itself at any threshold
    up to 1, and texts similar at a threshold are similar at every lower
    one. *)
Theorem are_similar_reflexive_monotone
    (text1 text2 : string) (low high : Q) :
  word_set (_normalize_text text1) <> ∅ ->
  (low <= high)%Q -> (high <= 1)%Q ->
  _are_similar text1 text1 high = true
  /\ (_are_similar text1 text2 high = true ->
      _are_similar text1 text2 low = true).
Proof.
  intros Htok Hle Hone. split.
  - unfold _are_similar. rewrite bool_decide_eq_false_2 by done. simpl.
    apply Qle_bool_iff. eapply Qle_trans; [exact Hone|].
    unfold similarity.
    assert (word_set (_normalize_text text1) ∩ word_set (_normalize_text text1)
            = word_set (_normalize_text text1)) as -> by set_solver.
    assert (word_set (_normalize_text text1) ∪ word_set (_normalize_text text1)
            = word_set (_normalize_text text1)) as -> by set_solver.
    assert (0 < size (word_set (_normalize_text text1))) as Hpos.
    { destruct (size (word_set (_normalize_text text1))) eqn:E; [|lia].
      by apply size_empty_inv, leibniz_equiv in E. }
    assert ((0 <? size (word_set (_normalize_text text1))) = true) as ->
      by (by apply Nat.ltb_lt).
    unfold Qle; simpl. rewrite Z.mul_1_r, Z.mul_1_l.
    rewrite <- positive_nat_Z, Nat2Pos.id; lia.
  - unfold _are_similar.
    destruct (bool_decide (word_set (_normalize_text text1) = ∅)
              || bool_decide (word_set (_normalize_text text2) = ∅));
      [done|].
    rewrite !Qle_bool_iff. intros Hs. by eapply Qle_trans.
Qed.

(** The two thresholds of the test. *)
Lemma are_similar_reflexive_monotone_witness :
  _are_similar "The system must validate user input"
               "The system must validate user input" (7 # 10) = true
  /\ (_are_similar "The system must validate user input"
                   "The system must validate input from users" (7 # 10) = true
      -> _are_similar "The system must validate user input"
                      "The system must validate input from users" (6 # 10)
         = true).
Proof.
  apply (are_similar_reflexive_monotone
           "The system must validate user input"
           "The system must validate input from users" (6 # 10) (7 # 10)).
  - vm_compute. discriminate.
  - vm_compute. discriminate.
  - vm_compute. discriminate.
Defined.

End SimilarityMore.

(** ** More on deduplication and on the aggregate document *)
Module DedupMore.
Import Pathlib Regex RequirementsAggregator RequirementsSpec AggregatorNotions
  DedupFacts FormatFacts.

(** X7. Nothing is lost without a stand-in: for every requirement of the
    input, the output holds a requirement met at or before it whose
    normalized text is the same or of which it is a near-duplicate. *)
Theorem every_requirement_is_represented
    (pre post : list ExtractedRequirement) (r : ExtractedRequirement) :
  exists k,
    k ∈ pre ++ [r]
    /\ k ∈ deduplicate_requirements (pre ++ r :: post)
    /\ (norm k = norm r \/ near_duplicate r k).
Proof.
  assert (r ∈ pre ++ [r]) as Hin by (apply elem_of_app; right; constructor).
  pose proof (scanned_absorbed (pre ++ [r]) [] r Hin) as Ha.
  apply absorbed_iff in Ha as (k & Hk & Hrel).
  exists k. split; [|split; [|exact Hrel]].
  - destruct (scan_extends (pre ++ [r]) []) as (out & Hout & Hsub).
    rewrite Hout in Hk. simpl in Hk.
    eapply elem_of_sublist; eassumption.
  - rewrite deduplicate_scan.
    change (pre ++ r :: post) with (pre ++ [r] ++ post).
    rewrite app_assoc, scan_app.
    destruct (scan_extends post (scan [] (pre ++ [r]))) as (out & -> & _).
    apply elem_of_app. by left.
Qed.

(** X8. The output is never longer than the input and starts with the same
    requirement: the first requirement is always kept, and only an empty
    input gives an empty output. *)
Theorem deduplicate_keeps_the_first (reqs : list ExtractedRequirement) :
  length (deduplicate_requirements reqs) <= length reqs
  /\ head (deduplicate_requirements reqs) = head reqs.
Proof.
  rewrite deduplicate_scan. split.
  - destruct (scan_extends reqs []) as (out & -> & Hsub).
    simpl. by apply sublist_length.
  - destruct reqs as [|r rest]; [reflexivity|].
    assert (absorbed [] r = false) as Hr.
    { unfold absorbed. rewrite bool_decide_eq_false_2; [reflexivity|].
      simpl. apply not_elem_of_nil. }
    change (scan [] (r :: rest))
      with (if absorbed [] r then scan [] rest else scan ([] ++ [r]) rest).
    rewrite Hr.
    destruct (scan_extends rest ([] ++ [r])) as (out & -> & _).
    reflexivity.
Qed.

Lemma absorbed_relabel (f : ExtractedRequirement -> ExtractedRequirement)
    (kept : list ExtractedRequirement) (r : ExtractedRequirement) :
  (forall x, text (f x) = text x) ->
  absorbed (f <$> kept) (f r) = absorbed kept r.
Proof.
  intros Hf. unfold absorbed.
  assert (forall x, norm (f x) = norm x) as Hn
    by (intros x; unfold norm; by rewrite Hf).
  rewrite <- list_fmap_compose.
  rewrite (list_fmap_ext (norm ∘ f) norm kept) by (intros; apply Hn).
  rewrite Hn, Hf. f_equal.
  induction kept as [|k kept IH]; [reflexivity|].
  rewrite fmap_cons. cbn [existsb]. by rewrite Hf, IH.
Qed.

Lemma scan_relabel (f : ExtractedRequirement -> ExtractedRequirement)
    (reqs : list ExtractedRequirement) :
  (forall x, text (f x) = text x) ->
  forall kept, scan (f <$> kept) (f <$> reqs) = f <$> scan kept reqs.
Proof.
  intros Hf. induction reqs as [|r reqs IH]; intros kept; [reflexivity|].
  simpl. rewrite absorbed_relabel by done.
  destruct (absorbed kept r); [apply IH|].
  rewrite <- IH. by rewrite fmap_app.
Qed.

(** X9. Deduplication reads nothing of a requirement but its text: changing
    the other fields of every requirement (source file, line number, type,
    confidence, context) changes the same fields of the output and nothing
    else. *)
Theorem deduplicate_reads_only_text
    (f : ExtractedRequirement -> ExtractedRequirement)
    (reqs : list ExtractedRequirement) :
  (forall x, text (f x) = text x) ->
  deduplicate_requirements (f <$> reqs) = f <$> deduplicate_requirements reqs.
Proof.
  intros Hf. rewrite !deduplicate_scan.
  exact (scan_relabel f reqs Hf []).
Qed.

(** The requirements of two files, all said to come from a third. *)
Lemma deduplicate_reads_only_text_witness :
  deduplicate_requirements
    (with_source (rel ["merged.md"]) <$>
       [req_validate; req_login; req_four_words; req_five_words])
  = with_source (rel ["merged.md"]) <$>
      deduplicate_requirements
        [req_validate; req_login; req_four_words; req_five_words].
Proof.
  apply (deduplicate_reads_only_text (with_source (rel ["merged.md"]))).
  intros x. reflexivity.
Defined.

Lemma append_assoc (a b c : string) : (a +:+ b) +:+ c = a +:+ (b +:+ c).
Proof.
  induction a as [|x a IH]; [reflexivity|].
  change ((String x a +:+ b) +:+ c) with (String x ((a +:+ b) +:+ c)).
  change (String x a +:+ (b +:+ c)) with (String x (a +:+ (b +:+ c))).
  by rewrite IH.
Qed.

Lemma append_empty_r (a : string) : a +:+ "" = a.
Proof.
  induction a as [|x a IH]; [reflexivity|].
  change (String x a +:+ "") with (String x (a +:+ "")). by rewrite IH.
Qed.

Lemma prefix_append (n b : string) : String.prefix n (n +:+ b) = true.
Proof.
  induction n as [|x n IH]; [by destruct b|].
  change (String x n +:+ b) with (String x (n +:+ b)). simpl.
  destruct (ascii_dec x x); [exact IH|done].
Qed.

Lemma contains_prefix (n h : string) :
  String.prefix n h = true -> Text.contains n h = true.
Proof. intros H. destruct h; cbn [Text.contains]; by rewrite H. Qed.

Lemma contains_infix (n a b : string) :
  Text.contains n (a +:+ n +:+ b) = true.
Proof.
  induction a as [|x a IH].
  - change ("" +:+ n +:+ b) with (n +:+ b).
    apply contains_prefix, prefix_append.
  - change (String x a +:+ n +:+ b) with (String x (a +:+ n +:+ b)).
    cbn [Text.contains]. rewrite IH.
    by destruct (String.prefix n (String x (a +:+ n +:+ b))).
Qed.

Lemma join_cons (sep p : string) (ps : list string) :
  ps <> [] -> Text.join sep (p :: ps) = p +:+ sep +:+ Text.join sep ps.
Proof. by destruct ps. Qed.

Lemma join_app (sep : string) (l1 l2 : list string) :
  l1 <> [] -> l2 <> [] ->
  Text.join sep (l1 ++ l2) = Text.join sep l1 +:+ sep +:+ Text.join sep l2.
Proof.
  intros H1 H2. induction l1 as [|p l1 IH]; [done|].
  destruct l1 as [|q l1].
  - simpl app. by rewrite join_cons.
  - change ((p :: q :: l1) ++ l2) with (p :: q :: (l1 ++ l2)).
    rewrite (join_cons sep p (q :: (l1 ++ l2))) by discriminate.
    change (q :: (l1 ++ l2)) with ((q :: l1) ++ l2).
    rewrite IH by discriminate.
    rewrite (join_cons sep p (q :: l1)) by discriminate.
    by rewrite !append_assoc.
Qed.

Lemma join_infix (sep : string) (l1 l2 l3 : list string) :
  l2 <> [] ->
  exists a b, Text.join sep (l1 ++ l2 ++ l3) = a +:+ Text.join sep l2 +:+ b.
Proof.
  intros H2.
  assert (exists b, Text.join sep (l2 ++ l3) = Text.join sep l2 +:+ b)
    as [b Hb].
  { destruct l3 as [|x l3].
    - exists "". by rewrite app_nil_r, append_empty_r.
    - exists (sep +:+ Text.join sep (x :: l3)). by apply join_app. }
  destruct l1 as [|p l1].
  - exists "", b. exact Hb.
  - exists (Text.join sep (p :: l1) +:+ sep), b.
    rewrite join_app, Hb; [by rewrite !append_assoc|done|by destruct l2].
Qed.

Lemma enumerate_lookup {A} (xs : list A) :
  forall start i x,
    xs !! i = Some x ->
    exists before after,
      enumerate start xs = before ++ (start + i, x) :: after.
Proof.
  induction xs as [|y xs IH]; intros start i x Hi; [done|].
  destruct i as [|i]; simpl in *.
  - injection Hi as ->. exists [], (enumerate (S start) xs).
    by rewrite Nat.add_0_r.
  - destruct (IH (S start) i x Hi) as (before & after & ->).
    exists ((start, y) :: before), after.
    by rewrite Nat.add_succ_r.
Qed.

(** X10. Every requirement of type EARS is written out: the document
    contains, as consecutive lines, the block of the [i]-th EARS requirement
    of the input, numbered [i] (from 1) and giving its text, the name of its
    source file with its line number, and its confidence with two
    decimals. *)
Theorem format_as_ears_writes_every_ears_requirement
    (now : string) (requirements : list ExtractedRequirement)
    (i : nat) (r : ExtractedRequirement) :
  filter (fun r => requirement_type r = EARS) requirements !! i = Some r ->
  Text.contains
    (Text.join newline
       [ "### Requirement " +:+ Text.string_of_nat (S i);
         "";
         "**Text:** " +:+ text r;
         "**Source:** " +:+ name (source_file r) +:+ ":" +:+
           Text.string_of_nat (line_number r);
         "**Confidence:** " +:+ format_2f (confidence r);
         "" ])
    (format_as_ears now requirements) = true.
Proof.
  intros Hi. rewrite format_as_ears_only_ears.
  destruct (filter _ requirements) as [|e ears] eqn:Hf; [done|].
  destruct (enumerate_lookup (e :: ears) 1 i r Hi) as (before & after & ->).
  rewrite map_app, concat_app.
  set (block := [_; _; _; _; _; _]).
  set (lead := preamble now (length requirements) ++
               ["## EARS Format Requirements"; ""] ++
               concat (map ears_entry before)).
  assert (preamble now (length requirements) ++
          ["## EARS Format Requirements"; ""] ++
          concat (map ears_entry before) ++
          concat (map ears_entry ((1 + i, r) :: after))
          = lead ++ block ++ concat (map ears_entry after)) as ->.
  { subst lead block. rewrite <- !app_assoc. reflexivity. }
  destruct (join_infix newline lead block (concat (map ears_entry after)))
    as (a & b & ->); [done|].
  apply contains_infix.
Qed.

(** The first of two EARS requirements around a general one. *)
Lemma format_as_ears_writes_every_ears_requirement_witness :
  Text.contains
    (Text.join newline
       [ "### Requirement 2"; "";
         "**Text:** IF the key is wrong THEN the system SHALL refuse";
         "**Source:** test1.md:9";
         "**Confidence:** 0.90"; "" ])
    (format_as_ears "2025-01-01 00:00:00"
       [ sample "WHEN user logs in THEN system SHALL authenticate"
                "test1.md" 1 EARS;
         req_validate;
         sample "IF the key is wrong THEN the system SHALL refuse"
                "test1.md" 9 EARS ]) = true.
Proof.
  apply (format_as_ears_writes_every_ears_requirement
           "2025-01-01 00:00:00"
           [ sample "WHEN user logs in THEN system SHALL authenticate"
                    "test1.md" 1 EARS;
             req_validate;
             sample "IF the key is wrong THEN the system SHALL refuse"
                    "test1.md" 9 EARS ]
           1
           (sample "IF the key is wrong THEN the system SHALL refuse"
                   "test1.md" 9 EARS)).
  reflexivity.
Defined.

End DedupMore.

(** ** More on directory creation *)
Module CreatorMore.
Import Pathlib FileSystem BackupManager Reorganizer ReorganizerSpec Models
  DirectoryCreator CreatorNotions UndoFacts MkdirFacts CreatorFacts
  CreationFacts RoundTripFacts.


(** When the walk succeeds, its end is a directory. *)
Lemma mkdirs_some_dir (rest : list string) :
  forall m pre m',
    rest <> [] -> mkdirs m pre rest = Some m' ->
    m' !! (pre ++ rest) = Some Dir.
Proof.
  induction rest as [|c rest IH]; intros m pre m' Hne Hmk; [done|].
  simpl in Hmk.
  destruct rest as [|c' rest].
  - destruct (m !! (pre ++ [c])) as [[|content]|] eqn:E; try discriminate;
      simpl in Hmk; injection Hmk as <-; [exact E|apply lookup_insert_eq].
  - replace (pre ++ c :: c' :: rest) with ((pre ++ [c]) ++ c' :: rest)
      by (by rewrite <- app_assoc).
    destruct (m !! (pre ++ [c])) as [[|content]|] eqn:E; try discriminate;
      eapply IH; try exact Hmk; done.
Qed.




Lemma node_at_after_mkdir (fs fs' : filesystem) (directory : Path) :
  exists_ fs directory = false ->
  mkdir_parents fs directory = Some fs' ->
  node_at fs' directory = Some Dir.
Proof.
  intros Hex. unfold mkdir_parents.
  destruct (mkdirs (nodes fs) [] (resolve fs directory)) as [m|] eqn:E;
    [|discriminate].
  intros [= <-]. unfold node_at.
  rewrite (resolve_cwd fs) by done. simpl.
  assert (resolve fs directory <> []) as Hne.
  { intros Heq. unfold exists_, node_at in Hex. by rewrite Heq in Hex. }
  rewrite lookup_node_key by done.
  exact (mkdirs_some_dir _ _ [] _ Hne E).
Qed.

(** What [ensure_directory_exists] gives, read as a pair. *)
Lemma ensure_cases (fs : filesystem) (directory : Path) :
  (exists_ fs directory = true /\
   ensure_directory_exists fs directory = (is_dir fs directory, fs))
  \/ (exists_ fs directory = false /\
      exists fs', mkdir_parents fs directory = Some fs' /\
                  is_dir fs' directory = true /\
                  ensure_directory_exists fs directory = (true, fs'))
  \/ (exists_ fs directory = false /\
      mkdir_parents fs directory = None /\
      ensure_directory_exists fs directory = (false, fs)).
Proof.
  unfold ensure_directory_exists.
  destruct (exists_ fs directory) eqn:Hex; [by left|right].
  destruct (mkdir_parents fs directory) as [fs'|] eqn:Hmk; [left|by right].
  split; [reflexivity|]. exists fs'. split; [reflexivity|].
  pose proof (node_at_after_mkdir _ _ _ Hex Hmk) as Hn.
  unfold exists_, is_dir. rewrite Hn. by split.
Qed.





Section account.
Context {M : Type} `{BackupManager M}.
Variables (project_dir : Path) (backup_session : BackupSession).

Local Abbreviation step := (create_one project_dir backup_session).
Local Abbreviation target := (target_of project_dir).
Local Abbreviation sid := (session_id backup_session).

(** One turn of the loop, with what it adds to the lists. *)
Lemma create_one_account (st : loop_state) (d : Path) :
  exists new newf,
    st_created (step st d) = st_created st ++ new
    /\ st_manager (step st d)
       = track_all (st_manager st) sid (creation_of <$> new)
    /\ st_failed (step st d) = st_failed st ++ newf
    /\ st_errors (step st d) = st_errors st ++ (snd <$> newf)
    /\ (new = [] \/
        new = [target d] /\ exists_ (st_fs st) (target d) = false
        /\ is_dir (st_fs (step st d)) (target d) = true).
Proof.
  unfold create_one.
  destruct (exists_ (st_fs st) (target d)) eqn:Hex.
  - destruct (is_dir (st_fs st) (target d)); simpl.
    + exists [], []. rewrite !app_nil_r. repeat split; auto.
    + eexists [], [_]. rewrite !app_nil_r. repeat split; auto.
  - destruct (ensure_directory_exists (st_fs st) (target d)) as [ok fs'] eqn:He.
    destruct ok; simpl.
    + exists [target d], []. rewrite !app_nil_r.
      repeat split; try reflexivity. right.
      repeat split; try reflexivity. by apply ensure_ok_is_dir in He.
    + eexists [], [_]. rewrite !app_nil_r. repeat split; auto.
Qed.

Lemma not_exists_before (fs fs' : filesystem) (p : Path) :
  extends fs fs' -> exists_ fs' p = false -> exists_ fs p = false.
Proof.
  intros Hext Hn. destruct (exists_ fs p) eqn:E; [|reflexivity].
  by rewrite (extends_exists _ _ _ Hext E) in Hn.
Qed.

Lemma exists_by_location (fs fs' : filesystem) (p p' : Path) :
  extends fs fs' -> resolve fs p = resolve fs p' ->
  is_dir fs p = true -> exists_ fs' p' = true.
Proof.
  intros Hext Hres Hdir.
  apply (extends_is_dir _ _ _ Hext), is_dir_exists in Hdir.
  unfold exists_, node_at in *.
  rewrite !(resolve_cwd fs fs') in * by (by apply extends_cwd).
  by rewrite <- Hres.
Qed.

(** The whole loop, with what it adds to the lists. *)
Lemma loop_account (dirs : list Path) :
  forall st,
    let st' := fold_left step dirs st in
    exists new newf,
      st_created st' = st_created st ++ new
      /\ st_manager st' = track_all (st_manager st) sid (creation_of <$> new)
      /\ st_failed st' = st_failed st ++ newf
      /\ st_errors st' = st_errors st ++ (snd <$> newf)
      /\ Forall (fun p => exists_ (st_fs st) p = false
                          /\ is_dir (st_fs st') p = true) new
      /\ NoDup (resolve (st_fs st) <$> new).
Proof.
  induction dirs as [|d dirs IH]; intros st; simpl.
  { exists [], []. rewrite !app_nil_r. repeat split; auto; constructor. }
  destruct (create_one_account st d)
    as (new1 & newf1 & Hc1 & Hm1 & Hf1 & He1 & Hnew1).
  destruct (IH (step st d)) as (new2 & newf2 & Hc2 & Hm2 & Hf2 & He2 & Hall & Hnd).
  pose proof (proj1 (create_one_cases project_dir backup_session st d))
    as Hext1.
  pose proof (loop_extends project_dir backup_session dirs (step st d))
    as Hext2.
  exists (new1 ++ new2), (newf1 ++ newf2).
  split; [by rewrite Hc2, Hc1, app_assoc|].
  split.
  { rewrite Hm2, Hm1. unfold track_all. by rewrite fmap_app, fold_left_app. }
  split; [by rewrite Hf2, Hf1, app_assoc|].
  split; [by rewrite He2, He1, fmap_app, app_assoc|].
  assert (Forall (fun p => exists_ (st_fs st) p = false
                           /\ is_dir (st_fs (fold_left step dirs (step st d))) p
                              = true) new2) as Hall2.
  { eapply Forall_impl; [exact Hall|]. intros p [Hne Hd].
    split; [by eapply not_exists_before|exact Hd]. }
  assert (resolve (st_fs st) <$> new2 = resolve (st_fs (step st d)) <$> new2)
    as Hres.
  { apply list_fmap_ext. intros i p _. symmetry. apply resolve_cwd.
    by apply extends_cwd. }
  destruct Hnew1 as [->|(-> & Hne & Hd)].
  { change ([] ++ new2) with new2. split; [exact Hall2|]. by rewrite Hres. }
  change ([target d] ++ new2) with (target d :: new2). rewrite fmap_cons.
  split.
  - constructor; [|exact Hall2].
    split; [exact Hne|]. by eapply extends_is_dir.
  - constructor; [|by rewrite Hres].
    intros Hin. apply list_elem_of_fmap in Hin as (p & Hp & Hin).
    rewrite Forall_forall in Hall. destruct (Hall p Hin) as [Hnp _].
    assert (exists_ (st_fs (step st d)) p = true) as Hyes; [|congruence].
    unfold exists_, node_at.
    rewrite (resolve_cwd (st_fs st)) by (by apply extends_cwd).
    rewrite <- Hp.
    rewrite <- (resolve_cwd (st_fs st) (st_fs (step st d)))
      by (by apply extends_cwd).
    apply is_dir_exists in Hd. exact Hd.
Qed.

Lemma step_frame (base st : loop_state) (d : Path) :
  step (framed base st) d = framed base (step st d).
Proof.
  unfold create_one, framed. simpl.
  destruct (exists_ (st_fs st) (target d)).
  - destruct (is_dir (st_fs st) (target d)); simpl; by rewrite !app_assoc.
  - destruct (ensure_directory_exists (st_fs st) (target d)) as [[] fs'];
      simpl; by rewrite !app_assoc.
Qed.

Lemma loop_frame (dirs : list Path) :
  forall base st,
    fold_left step dirs (framed base st) = framed base (fold_left step dirs st).
Proof.
  induction dirs as [|d dirs IH]; intros base st; simpl; [reflexivity|].
  by rewrite step_frame, IH.
Qed.

Lemma framed_blank (st : loop_state (M := M)) :
  framed st (initial_state (st_fs st) (st_manager st)) = st.
Proof. unfold framed. simpl. rewrite !app_nil_r. by destruct st. Qed.

Lemma result_of_framed (base st : loop_state (M := M)) :
  result_of (framed base st) = results_joined (result_of base) (result_of st).
Proof.
  unfold result_of, results_joined, framed. simpl. f_equal.
  rewrite length_app.
  destruct (st_failed base), (st_failed st); reflexivity.
Qed.

End account.

(** X13. The backup manager is told of the directories the call created, of
    each once, in the order of their creation and under the id of the given
    session, and of nothing else; and the error messages of the result are
    those of its failed directories, in order. *)
Theorem create_missing_directories_tracks_creations
    {M : Type} `{BackupManager M}
    (fs fs' : filesystem) (manager manager' : M) (project_dir : Path)
    (missing_dirs : list Path) (backup_session : BackupSession)
    (r : CreationResult) :
  create_missing_directories fs manager project_dir missing_dirs backup_session
    = Returned (fs', manager', r) ->
  manager' = track_all manager (session_id backup_session)
               (creation_of <$> created_directories r)
  /\ errors r = snd <$> failed_directories r.
Proof.
  unfold create_missing_directories.
  destruct (exists_ fs project_dir); simpl; [|discriminate].
  intros [= <- <- <-].
  destruct (loop_account project_dir backup_session missing_dirs
              (initial_state fs manager))
    as (new & newf & Hc & Hm & Hf & He & _).
  simpl in *. by rewrite Hc, Hm, Hf, He.
Qed.

(** The batch of the test with the file in the way. *)
Lemma create_missing_directories_tracks_creations_witness :
  exists fs' manager' r,
    create_missing_directories Samples.sample_fs Samples.sample_manager
      Samples.sample_project [rel ["specs"]; rel ["conflict"]; rel ["docs"]]
      Samples.sample_session = Returned (fs', manager', r)
    /\ manager' = track_all Samples.sample_manager "test-session"
                    (creation_of <$> created_directories r)
    /\ errors r = snd <$> failed_directories r.
Proof.
  eexists _, _, _. split; [vm_compute; reflexivity|].
  eapply create_missing_directories_tracks_creations
    with (fs := Samples.sample_fs) (manager := Samples.sample_manager)
         (project_dir := Samples.sample_project)
         (missing_dirs := [rel ["specs"]; rel ["conflict"]; rel ["docs"]])
         (backup_session := Samples.sample_session).
  vm_compute. reflexivity.
Defined.

Lemma track_all_mock (manager : MockBackupManager) (session : string)
    (ops : list FileOperation) :
  operations (track_all manager session ops) = operations manager ++ ops.
Proof.
  revert manager. induction ops as [|op ops IH]; intros manager; simpl.
  - by rewrite app_nil_r.
  - unfold track_all in *. simpl. rewrite IH. simpl.
    by rewrite <- app_assoc.
Qed.

(** X14. With the mock manager of the test, whatever session is given, the
    operations it holds after a call are those it held before followed by
    one CREATE operation, without a source, per created directory, in
    order. *)
Theorem mock_manager_lists_creations
    (fs fs' : filesystem) (manager manager' : MockBackupManager)
    (project_dir : Path) (missing_dirs : list Path)
    (backup_session : BackupSession) (r : CreationResult) :
  create_missing_directories fs manager project_dir missing_dirs backup_session
    = Returned (fs', manager', r) ->
  operations manager'
  = operations manager ++
    map (fun p => {| operation_type := CREATE; source_path := None;
                     target_path := p |}) (created_directories r).
Proof.
  unfold create_missing_directories.
  destruct (exists_ fs project_dir); simpl; [|discriminate].
  intros [= <- <- <-].
  destruct (loop_account project_dir backup_session missing_dirs
              (initial_state fs manager))
    as (new & newf & Hc & Hm & _).
  simpl in *. rewrite Hc, Hm. apply track_all_mock.
Qed.

(** A manager that already holds an operation. *)
Lemma mock_manager_lists_creations_witness :
  exists fs' manager' r,
    create_missing_directories Samples.sample_fs
      {| operations := [creation_of (rel ["project"])] |}
      Samples.sample_project Samples.sample_dirs Samples.sample_session
      = Returned (fs', manager', r)
    /\ operations manager'
       = [creation_of (rel ["project"])] ++
         map (fun p => {| operation_type := CREATE; source_path := None;
                          target_path := p |}) (created_directories r).
Proof.
  eexists _, _, _. split; [vm_compute; reflexivity|].
  eapply mock_manager_lists_creations
    with (fs := Samples.sample_fs)
         (manager := {| operations := [creation_of (rel ["project"])] |})
         (project_dir := Samples.sample_project)
         (missing_dirs := Samples.sample_dirs)
         (backup_session := Samples.sample_session).
  vm_compute. reflexivity.
Defined.



(** X16. A call on a list in two parts is a call on the first part followed
    by a call on the second, from the filesystem and the manager the first
    one left: the second call does not raise, the final filesystem and
    manager are its own, and the result joins the two results, successful
    when both are. *)
Theorem create_missing_directories_in_two_calls
    {M : Type} `{BackupManager M}
    (fs : filesystem) (manager : M) (project_dir : Path)
    (first second : list Path) (backup_session : BackupSession) :
  create_missing_directories fs manager project_dir (first ++ second)
    backup_session
  = match create_missing_directories fs manager project_dir first
            backup_session with
    | Raised message => Raised message
    | Returned (fs1, manager1, r1) =>
        match create_missing_directories fs1 manager1 project_dir second
                backup_session with
        | Raised message => Raised message
        | Returned (fs2, manager2, r2) =>
            Returned (fs2, manager2, results_joined r1 r2)
        end
    end.
Proof.
  unfold create_missing_directories.
  destruct (exists_ fs project_dir) eqn:Hroot; simpl; [|reflexivity].
  set (st1 := fold_left (create_one project_dir backup_session) first
                        (initial_state fs manager)).
  assert (exists_ (st_fs st1) project_dir = true) as ->.
  { eapply extends_exists; [|exact Hroot].
    apply (loop_extends project_dir backup_session first
             (initial_state fs manager)). }
  simpl. rewrite fold_left_app. fold st1.
  rewrite <- (framed_blank st1) at 1 2 3.
  rewrite loop_frame. simpl.
  by rewrite result_of_framed.
Qed.

End CreatorMore.

(** ** Directory trees *)
Module TreeMore.
Import Pathlib FileSystem BackupManager Reorganizer ReorganizerSpec Models
  DirectoryCreator CreatorNotions DirectoryTree UndoFacts MkdirFacts
  CreatorFacts CreationFacts RoundTripFacts CreatorMore.

Lemma structure_induction (P : structure -> Prop) :
  (forall items,
     Forall (fun item => forall inner, snd item = Some inner -> P inner) items ->
     P (Structure items)) ->
  forall s, P s.
Proof.
  intros Hstep. fix IH 1. intros [items]. apply Hstep.
  induction items as [|[name [inner|]] items IHi]; constructor.
  - intros inner' [= <-]. apply IH.
  - exact IHi.
  - intros inner' [=].
  - exact IHi.
Qed.

Lemma create_recursive_items (current_path : Path)
    (items : list (string * option structure)) :
  forall fs created_paths,
    _create_recursive (Structure items) current_path fs created_paths
    = create_each current_path items fs created_paths.
Proof.
  induction items as [|[name [inner|]] items IH]; intros fs created_paths.
  - reflexivity.
  - simpl.
    destruct (ensure_directory_exists fs _) as [[] fs1]; [|reflexivity].
    destruct (_create_recursive inner _ fs1 _) as [fs2 [paths|message]];
      [|reflexivity].
    apply IH.
  - simpl. apply IH.
Qed.

Lemma directories_of_items (current_path : Path)
    (items : list (string * option structure)) :
  directories_of current_path (Structure items)
  = directories_each current_path items.
Proof.
  induction items as [|[name [inner|]] items IH]; simpl in *;
    [reflexivity| |exact IH].
  by rewrite IH.
Qed.

Lemma ensure_all_app (l1 l2 : list Path) :
  forall fs created_paths,
    ensure_all (l1 ++ l2) fs created_paths
    = match ensure_all l1 fs created_paths with
      | (fs1, Returned created_paths') => ensure_all l2 fs1 created_paths'
      | (fs1, Raised message) => (fs1, Raised message)
      end.
Proof.
  induction l1 as [|d l1 IH]; intros fs created_paths; simpl; [reflexivity|].
  destruct (ensure_directory_exists fs d) as [[] fs1]; [apply IH|reflexivity].
Qed.

Lemma create_recursive_flat (s : structure) (current_path : Path)
    (fs : filesystem) (created_paths : list Path) :
  _create_recursive s current_path fs created_paths
  = ensure_all (directories_of current_path s) fs created_paths.
Proof.
  revert current_path fs created_paths.
  induction s as [items IHitems] using structure_induction.
  intros current_path fs created_paths.
  rewrite create_recursive_items, directories_of_items.
  revert fs created_paths.
  induction IHitems as [|[name [inner|]] items Hinner _ IH];
    intros fs created_paths; simpl.
  - reflexivity.
  - destruct (ensure_directory_exists fs _) as [[] fs1]; [|reflexivity].
    rewrite ensure_all_app.
    rewrite (Hinner inner eq_refl).
    destruct (ensure_all _ fs1 _) as [fs2 [paths|message]]; [|reflexivity].
    apply IH.
  - apply IH.
Qed.

(** X17. [create_directory_tree] is one pass over a list: the base
    directory is ensured first if it is not there, then the recursion over
    the nested structure ensures the directories the structure names, a
    directory before what it holds and the items of a dict in their order;
    the first path that cannot be ensured stops the pass. *)
Theorem create_directory_tree_is_one_pass
    (fs : filesystem) (base_dir : Path) (s : structure) :
  create_directory_tree fs base_dir s
  = if exists_ fs base_dir
    then ensure_all (directories_of base_dir s) fs []
    else
      match ensure_directory_exists fs base_dir with
      | (true, fs1) => ensure_all (directories_of base_dir s) fs1 [base_dir]
      | (false, fs1) =>
          (fs1, Raised ("Failed to create base directory: " +:+
                        to_string base_dir))
      end.
Proof.
  unfold create_directory_tree.
  destruct (exists_ fs base_dir); simpl.
  - apply create_recursive_flat.
  - destruct (ensure_directory_exists fs base_dir) as [[] fs1]; simpl.
    + apply create_recursive_flat.
    + reflexivity.
Qed.

(** What a pass leaves behind. *)
Lemma ensure_all_outcome (dirs : list Path) :
  forall fs created_paths,
    let r := ensure_all dirs fs created_paths in
    extends fs (fst r)
    /\ match snd r with
       | Returned paths =>
           paths = created_paths ++ dirs
           /\ Forall (fun p => is_dir (fst r) p = true) dirs
       | Raised message =>
           exists before d after,
             dirs = before ++ d :: after
             /\ message = "Failed to create directory: " +:+ to_string d
             /\ Forall (fun p => is_dir (fst r) p = true) before
             /\ is_dir (fst r) d = false
       end.
Proof.
  induction dirs as [|d dirs IH]; intros fs created_paths; simpl.
  { split; [apply extends_refl|]. by rewrite app_nil_r. }
  destruct (ensure_cases fs d)
    as [(Hex & He)|[(Hex & fs1 & Hmk & Hdir & He)|(Hex & Hmk & He)]];
    rewrite He.
  - destruct (is_dir fs d) eqn:Hd.
    + specialize (IH fs (created_paths ++ [d])). simpl in IH.
      destruct IH as [Hext IH]. split; [exact Hext|].
      destruct (snd (ensure_all dirs fs (created_paths ++ [d])))
        as [paths|message].
      * destruct IH as [-> Hall]. split; [by rewrite <- app_assoc|].
        constructor; [by eapply extends_is_dir|exact Hall].
      * destruct IH as (before & d' & after & -> & -> & Hall & Hnd).
        exists (d :: before), d', after. repeat split; try done.
        constructor; [by eapply extends_is_dir|exact Hall].
    + simpl. split; [apply extends_refl|].
      exists [], d, dirs. repeat split; try done.
  - specialize (IH fs1 (created_paths ++ [d])). simpl in IH.
    destruct IH as [Hext IH].
    pose proof (mkdir_parents_extends _ _ _ Hmk) as Hext1.
    split; [by eapply extends_trans|].
    destruct (snd (ensure_all dirs fs1 (created_paths ++ [d])))
      as [paths|message].
    + destruct IH as [-> Hall]. split; [by rewrite <- app_assoc|].
      constructor; [by eapply extends_is_dir|exact Hall].
    + destruct IH as (before & d' & after & -> & -> & Hall & Hnd).
      exists (d :: before), d', after. repeat split; try done.
      constructor; [by eapply extends_is_dir|exact Hall].
  - simpl. split; [apply extends_refl|].
    exists [], d, dirs. repeat split; try done.
    unfold exists_, is_dir in *. by destruct (node_at fs d).
Qed.

Lemma ensure_all_settled (dirs : list Path) (fs : filesystem) :
  Forall (fun p => is_dir fs p = true) dirs ->
  forall created_paths,
    ensure_all dirs fs created_paths = (fs, Returned (created_paths ++ dirs)).
Proof.
  induction 1 as [|d dirs Hd _ IH]; intros created_paths; simpl.
  { by rewrite app_nil_r. }
  unfold ensure_directory_exists.
  rewrite (is_dir_exists _ _ Hd), Hd, IH. by rewrite <- app_assoc.
Qed.

(** X18. [create_directory_tree] only adds to the filesystem, whether it
    returns or raises.  When it returns, the list is the base directory if
    it was not there, then the directories the structure names, a directory
    before what it holds and whether or not they were there already, and all
    of them are directories.  When it raises, the message names the first
    of these paths that could not be made a directory; those before it are
    directories and it is not. *)
Theorem create_directory_tree_outcome
    (fs : filesystem) (base_dir : Path) (s : structure) :
  let fs' := fst (create_directory_tree fs base_dir s) in
  extends fs fs'
  /\ match snd (create_directory_tree fs base_dir s) with
     | Returned paths =>
         paths = paths_to_ensure fs base_dir s
         /\ Forall (fun p => is_dir fs' p = true) paths
     | Raised message =>
         exists before d after,
           paths_to_ensure fs base_dir s = before ++ d :: after
           /\ (message = "Failed to create directory: " +:+ to_string d
               \/ message = "Failed to create base directory: " +:+
                            to_string d /\ before = [])
           /\ Forall (fun p => is_dir fs' p = true) before
           /\ is_dir fs' d = false
     end.
Proof.
  unfold create_directory_tree, paths_to_ensure.
  destruct (ensure_cases fs base_dir)
    as [(Hex & He)|[(Hex & fs1 & Hmk & Hdir & He)|(Hex & Hmk & He)]];
    rewrite Hex; simpl negb; cbv iota.
  - rewrite create_recursive_flat.
    destruct (ensure_all_outcome (directories_of base_dir s) fs [])
      as [Hext Hout].
    split; [exact Hext|].
    destruct (snd (ensure_all (directories_of base_dir s) fs []))
      as [paths|message].
    { destruct Hout as [-> Hall]. by split. }
    destruct Hout as (before & d & after & Hd & Hm & Hall & Hnd).
    exists before, d, after. repeat split; auto.
  - rewrite He. simpl negb. cbv iota. rewrite create_recursive_flat.
    destruct (ensure_all_outcome (directories_of base_dir s) fs1 [base_dir])
      as [Hext Hout].
    pose proof (mkdir_parents_extends _ _ _ Hmk) as Hext1.
    split; [by eapply extends_trans|].
    destruct (snd (ensure_all (directories_of base_dir s) fs1 [base_dir]))
      as [paths|message].
    + destruct Hout as [-> Hall]. split; [reflexivity|].
      constructor; [by eapply extends_is_dir|exact Hall].
    + destruct Hout as (before & d & after & Hd & Hm & Hall & Hnd).
      exists (base_dir :: before), d, after.
      split; [by rewrite Hd|]. split; [by left|]. split; [|exact Hnd].
      constructor; [by eapply extends_is_dir|exact Hall].
  - rewrite He. simpl. split; [apply extends_refl|].
    exists [], base_dir, (directories_of base_dir s).
    repeat split; auto.
    unfold exists_, is_dir in *. by destruct (node_at fs base_dir).
Qed.

(** X19. After a call of [create_directory_tree] that returned, the same
    call changes nothing and returns the directories the structure names,
    without the base directory. *)
Theorem create_directory_tree_again
    (fs : filesystem) (base_dir : Path) (s : structure) (paths : list Path) :
  snd (create_directory_tree fs base_dir s) = Returned paths ->
  create_directory_tree (fst (create_directory_tree fs base_dir s)) base_dir s
  = (fst (create_directory_tree fs base_dir s),
     Returned (directories_of base_dir s)).
Proof.
  assert (forall fs1 created_paths,
            exists_ fs1 base_dir = true ->
            snd (ensure_all (directories_of base_dir s) fs1 created_paths)
              = Returned paths ->
            let fs' := fst (ensure_all (directories_of base_dir s) fs1
                              created_paths) in
            create_directory_tree fs' base_dir s
            = (fs', Returned (directories_of base_dir s))) as Hpass.
  { intros fs1 created_paths Hbase Hret.
    destruct (ensure_all_outcome (directories_of base_dir s) fs1 created_paths)
      as [Hext Hout].
    rewrite Hret in Hout. destruct Hout as [_ Hall]. simpl.
    unfold create_directory_tree.
    rewrite (extends_exists _ _ _ Hext Hbase). simpl.
    rewrite create_recursive_flat. by apply ensure_all_settled. }
  intros Hret.
  assert (exists fs1 created_paths,
            exists_ fs1 base_dir = true
            /\ create_directory_tree fs base_dir s
               = ensure_all (directories_of base_dir s) fs1 created_paths)
    as (fs1 & created_paths & Hbase & Heq).
  { unfold create_directory_tree in *.
    destruct (ensure_cases fs base_dir)
      as [(Hex & He)|[(Hex & fs1 & Hmk & Hdir & He)|(Hex & Hmk & He)]];
      rewrite Hex in *; simpl negb in *; cbv iota in *.
    - exists fs, []. split; [exact Hex|apply create_recursive_flat].
    - rewrite He in *. simpl negb in *. cbv iota in *.
      exists fs1, [base_dir].
      split; [by apply is_dir_exists|apply create_recursive_flat].
    - rewrite He in Hret. simpl in Hret. discriminate. }
  rewrite Heq in *. by apply Hpass.
Qed.

(** The tree of the third test under the sample project. *)
Lemma create_directory_tree_again_witness :
  create_directory_tree
    (fst (create_directory_tree Samples.sample_fs Samples.sample_project
            sample_structure))
    Samples.sample_project sample_structure
  = (fst (create_directory_tree Samples.sample_fs Samples.sample_project
            sample_structure),
     Returned (directories_of Samples.sample_project sample_structure)).
Proof.
  apply (create_directory_tree_again Samples.sample_fs Samples.sample_project
           sample_structure
           [rel ["project"; "new_area"];
            rel ["project"; "new_area"; "sub1"];
            rel ["project"; "new_area"; "sub2"];
            rel ["project"; "new_area"; "sub2"; "deep"]]).
  vm_compute. reflexivity.
Defined.







End TreeMore.

(** ** More on the classification scores *)
Module ClassifierMore.
Import Classifier ClassifierSpec ClassificationStatistics ClassifierFacts.

Ltac among :=
  repeat first [apply list_elem_of_here | apply list_elem_of_further].

(** The three totals, in the order of the dict. *)
Lemma score_file_shape (filename content : string) :
  score_file filename content
  = [("features", total_weight (signals_for filename content "features"));
     ("fixes", total_weight (signals_for filename content "fixes"));
     ("reference", total_weight (signals_for filename content "reference"))].
Proof.
  pose proof (score_file_keys filename content) as Hkeys.
  pose proof (fun c => score_is_total_weight filename content c) as Hw.
  destruct (score_file filename content) as [|[k1 a] [|[k2 b] [|[k3 c] [|]]]];
    try discriminate Hkeys.
  injection Hkeys as -> -> ->.
  rewrite <- (Hw "features"), <- (Hw "fixes"), <- (Hw "reference")
    by (unfold categories; among).
  reflexivity.
Qed.

Lemma weight_split (filename content category : string) :
  total_weight (signals_for filename content category)
  = (if bool_decide (filename_category filename = Some category)
     then 4 else 0)
    + (if any_in (keyword_words category) (Text.lower content) then 2 else 0)
    + (if any_in (pattern_words category) (Text.lower content) then 3 else 0).
Proof.
  unfold signals_for.
  destruct (bool_decide _), (any_in (keyword_words _) _),
    (any_in (pattern_words _) _); reflexivity.
Qed.


(** [max] over the three totals. *)
Lemma max_of_three (a b c : nat) :
  python_max [("features", a); ("fixes", b); ("reference", c)]
  = Some (if a <? b
          then if b <? c then ("reference", c) else ("fixes", b)
          else if a <? c then ("reference", c) else ("features", a)).
Proof.
  simpl. destruct (a <? b), (b <? c), (a <? c); reflexivity.
Qed.


Lemma filename_category_known (filename category : string) :
  filename_category filename = Some category -> category ∈ categories.
Proof.
  unfold filename_category, categories.
  repeat match goal with
         | |- context [if ?b then _ else _] => destruct b
         end; intros [= <-]; among.
Qed.

(** X22. When the name of a file points to a category and the content
    gives at least one signal for the same category, that category is
    predicted, with a confidence of 0.6 or more, and every other category
    scores strictly less: the content alone cannot outweigh the two. *)
Theorem filename_with_content_decides (filename content category : string) :
  filename_category filename = Some category ->
  any_in (keyword_words category) (Text.lower content)
  || any_in (pattern_words category) (Text.lower content) = true ->
  exists confidence,
    predict filename content = Some (category, confidence)
    /\ 6 <= confidence
    /\ forall other,
         other ∈ categories -> other <> category ->
         score_of (score_file filename content) other < confidence.
Proof.
  intros Hname Hcontent.
  pose proof (filename_category_known _ _ Hname) as Hcat.
  assert (6 <= total_weight (signals_for filename content category)) as Hbig.
  { rewrite weight_split, bool_decide_eq_true_2 by done.
    destruct (any_in (keyword_words _) _), (any_in (pattern_words _) _);
      simpl in *; lia. }
  assert (forall other, other <> category ->
            total_weight (signals_for filename content other) <= 5) as Hsmall.
  { intros other Hne. rewrite weight_split, bool_decide_eq_false_2.
    - destruct (any_in (keyword_words other) _),
        (any_in (pattern_words other) _); simpl; lia.
    - rewrite Hname. intros [= ->]. done. }
  unfold predict. rewrite score_file_shape, max_of_three.
  unfold categories in Hcat. category_cases Hcat.
  - pose proof (Hsmall "fixes" ltac:(discriminate)) as Hb.
    pose proof (Hsmall "reference" ltac:(discriminate)) as Hc.
    set (a := total_weight (signals_for filename content "features")) in *.
    set (b := total_weight (signals_for filename content "fixes")) in *.
    set (c := total_weight (signals_for filename content "reference")) in *.
    assert ((a <? b) = false) as -> by (apply Nat.ltb_ge; lia).
    assert ((a <? c) = false) as -> by (apply Nat.ltb_ge; lia).
    exists a. split; [reflexivity|]. split; [exact Hbig|].
    intros other Ho Hne. unfold categories in Ho. category_cases Ho;
      [done|simpl; lia|simpl; lia].
  - pose proof (Hsmall "features" ltac:(discriminate)) as Ha.
    pose proof (Hsmall "reference" ltac:(discriminate)) as Hc.
    set (a := total_weight (signals_for filename content "features")) in *.
    set (b := total_weight (signals_for filename content "fixes")) in *.
    set (c := total_weight (signals_for filename content "reference")) in *.
    assert ((a <? b) = true) as -> by (apply Nat.ltb_lt; lia).
    assert ((b <? c) = false) as -> by (apply Nat.ltb_ge; lia).
    exists b. split; [reflexivity|]. split; [exact Hbig|].
    intros other Ho Hne. unfold categories in Ho. category_cases Ho;
      [simpl; lia|done|simpl; lia].
  - pose proof (Hsmall "features" ltac:(discriminate)) as Ha.
    pose proof (Hsmall "fixes" ltac:(discriminate)) as Hb.
    set (a := total_weight (signals_for filename content "features")) in *.
    set (b := total_weight (signals_for filename content "fixes")) in *.
    set (c := total_weight (signals_for filename content "reference")) in *.
    assert ((b <? c) = true) as -> by (apply Nat.ltb_lt; lia).
    assert ((a <? c) = true) as -> by (apply Nat.ltb_lt; lia).
    exists c. split; [by destruct (a <? b)|]. split; [exact Hbig|].
    intros other Ho Hne. unfold categories in Ho. category_cases Ho;
      [simpl; lia|simpl; lia|done].
Qed.

(** A bug report whose name says so. *)
Lemma filename_with_content_decides_witness :
  exists confidence,
    predict "login_bug_fix.md" "Resolved. This document is a guide."
    = Some ("fixes", confidence)
    /\ 6 <= confidence
    /\ forall other,
         other ∈ categories -> other <> "fixes" ->
         score_of (score_file "login_bug_fix.md"
                     "Resolved. This document is a guide.") other
         < confidence.
Proof.
  apply (filename_with_content_decides "login_bug_fix.md"
           "Resolved. This document is a guide." "fixes").
  - vm_compute. reflexivity.
  - vm_compute. reflexivity.
Defined.

Lemma lower_char_idempotent (c : ascii) :
  Text.lower_char (Text.lower_char c) = Text.lower_char c.
Proof. destruct c as [[] [] [] [] [] [] [] []]; reflexivity. Qed.

Lemma lower_idempotent (s : string) : Text.lower (Text.lower s) = Text.lower s.
Proof.
  induction s as [|c s IH]; simpl; [reflexivity|].
  by rewrite lower_char_idempotent, IH.
Qed.

(** X23. The scoring does not see the case of letters: a file name and a
    content put in lower case get the scores and the prediction of the
    originals. *)
Theorem scoring_ignores_case (filename content : string) :
  score_file (Text.lower filename) (Text.lower content)
  = score_file filename content
  /\ predict (Text.lower filename) (Text.lower content)
     = predict filename content.
Proof.
  assert (score_file (Text.lower filename) (Text.lower content)
          = score_file filename content) as Hs.
  { unfold score_file, filename_scoring, content_scoring.
    by rewrite !lower_idempotent. }
  split; [exact Hs|]. unfold predict. by rewrite Hs.
Qed.

End ClassifierMore.

(** ** The statistics of a classification *)
Module StatisticsMore.
Import Classifier ClassificationStatistics.

Lemma bump_keys (c : string) (w : nat) (d : list (string * nat)) :
  fst <$> bump c w d = fst <$> d.
Proof.
  induction d as [|[k v] d IH]; [reflexivity|].
  change (bump c w ((k, v) :: d))
    with ((if String.eqb k c then (k, v + w) else (k, v)) :: bump c w d).
  rewrite !fmap_cons, IH. by destruct (String.eqb k c).
Qed.

Lemma bump_absent (c : string) (w : nat) (d : list (string * nat)) :
  c ∉ fst <$> d -> bump c w d = d.
Proof.
  induction d as [|[k v] d IH]; [reflexivity|].
  rewrite fmap_cons, not_elem_of_cons. simpl. intros [Hne Hd].
  change (bump c w ((k, v) :: d))
    with ((if String.eqb k c then (k, v + w) else (k, v)) :: bump c w d).
  destruct (String.eqb k c) eqn:E; [apply String.eqb_eq in E; congruence|].
  f_equal. by apply IH.
Qed.

Lemma bump_sum (c : string) (w : nat) (d : list (string * nat)) :
  NoDup (fst <$> d) -> c ∈ fst <$> d ->
  sum_values (bump c w d) = sum_values d + w.
Proof.
  induction d as [|[k v] d IH]; intros Hnd Hin.
  { by apply elem_of_nil in Hin. }
  rewrite fmap_cons in Hnd, Hin. simpl in Hnd, Hin.
  apply NoDup_cons in Hnd as [Hk Hnd].
  change (bump c w ((k, v) :: d))
    with ((if String.eqb k c then (k, v + w) else (k, v)) :: bump c w d).
  destruct (String.eqb k c) eqn:E.
  - apply String.eqb_eq in E as ->.
    rewrite (bump_absent c w d Hk). unfold sum_values. simpl. lia.
  - apply String.eqb_neq in E.
    apply elem_of_cons in Hin as [->|Hin]; [done|].
    specialize (IH Hnd Hin). unfold sum_values in *. simpl. lia.
Qed.

Lemma score_of_absent (d : list (string * nat)) (c : string) :
  c ∉ fst <$> d -> score_of d c = 0.
Proof.
  induction d as [|[k v] d IH]; [reflexivity|].
  rewrite fmap_cons, not_elem_of_cons. simpl. intros [Hne Hd].
  destruct (String.eqb k c) eqn:E; [apply String.eqb_eq in E; congruence|].
  by apply IH.
Qed.

Lemma score_of_bump_same (c : string) (w : nat) (d : list (string * nat)) :
  c ∈ fst <$> d -> score_of (bump c w d) c = score_of d c + w.
Proof.
  induction d as [|[k v] d IH]; intros Hin.
  { by apply elem_of_nil in Hin. }
  rewrite fmap_cons in Hin. simpl in Hin.
  change (bump c w ((k, v) :: d))
    with ((if String.eqb k c then (k, v + w) else (k, v)) :: bump c w d).
  destruct (String.eqb k c) eqn:E; simpl; rewrite E; [reflexivity|].
  apply String.eqb_neq in E.
  apply elem_of_cons in Hin as [->|Hin]; [done|by apply IH].
Qed.

Lemma score_of_bump_other (c c' : string) (w : nat)
    (d : list (string * nat)) :
  c' <> c -> score_of (bump c w d) c' = score_of d c'.
Proof.
  intros Hne. induction d as [|[k v] d IH]; [reflexivity|].
  change (bump c w ((k, v) :: d))
    with ((if String.eqb k c then (k, v + w) else (k, v)) :: bump c w d).
  destruct (String.eqb k c) eqn:E; simpl.
  - apply String.eqb_eq in E as ->.
    destruct (String.eqb c c') eqn:E'; [|exact IH].
    apply String.eqb_eq in E'. congruence.
  - destruct (String.eqb k c'); [reflexivity|exact IH].
Qed.

Lemma score_of_snoc (d : list (string * nat)) (c c' : string) :
  score_of (d ++ [(c, 0)]) c' = score_of d c'.
Proof.
  induction d as [|[k v] d IH]; simpl.
  - by destruct (String.eqb c c').
  - destruct (String.eqb k c'); [reflexivity|exact IH].
Qed.

Lemma sum_values_snoc (d : list (string * nat)) (c : string) :
  sum_values (d ++ [(c, 0)]) = sum_values d.
Proof.
  unfold sum_values. rewrite map_app, list_sum_app. simpl. lia.
Qed.

Section account.
Variable ClassifiedFile : Type.
Variable category : ClassifiedFile -> string.
Variable confidence : ClassifiedFile -> Q.

Local Abbreviation step := (count_step ClassifiedFile category confidence).
Local Abbreviation low := (low_confidence ClassifiedFile confidence).

Lemma files_of_snoc (c : string) (files : list ClassifiedFile)
    (cf : ClassifiedFile) :
  files_of category c (files ++ [cf])
  = files_of category c files + (if decide (category cf = c) then 1 else 0).
Proof.
  unfold files_of. rewrite filter_app, length_app. f_equal.
  rewrite filter_cons. by destruct (decide (category cf = c)).
Qed.

(** What the loop has counted after the files [files]. *)
Lemma loop_counts_files (files : list ClassifiedFile) :
  let st := fold_left step files ([], []) in
  NoDup (fst <$> fst st)
  /\ (forall c, c ∈ fst <$> fst st <-> exists cf, cf ∈ files /\ category cf = c)
  /\ (forall c, score_of (fst st) c = files_of category c files)
  /\ sum_values (fst st) = length files
  /\ snd st = filter (fun cf => low cf = true) files.
Proof.
  induction files as [|cf files IH] using rev_ind.
  { simpl. split; [constructor|]. split.
    - intros c. split; [intros H; by apply elem_of_nil in H|].
      intros (cf & H & _). by apply elem_of_nil in H.
    - repeat split; reflexivity. }
  rewrite fold_left_app. simpl.
  destruct (fold_left step files ([], [])) as [d lows].
  simpl in IH. destruct IH as (Hnd & Hkeys & Hscore & Hsum & Hlow).
  unfold count_step. simpl.
  set (d' := if bool_decide (category cf ∈ fst <$> d) then d
             else d ++ [(category cf, 0)]).
  assert (NoDup (fst <$> d')
          /\ category cf ∈ fst <$> d'
          /\ (forall c, c ∈ fst <$> d' <->
                        c ∈ fst <$> d \/ c = category cf)
          /\ (forall c, score_of d' c = score_of d c)
          /\ sum_values d' = sum_values d) as (Hnd' & Hin' & Hkeys' & Hs' & Hsum').
  { subst d'. destruct (bool_decide (category cf ∈ fst <$> d)) eqn:E.
    - apply bool_decide_eq_true in E. repeat split; auto.
      intros [H| ->]; auto.
    - apply bool_decide_eq_false in E.
      rewrite fmap_app. simpl. split.
      { apply NoDup_app. split; [exact Hnd|]. split; [|apply NoDup_singleton].
        intros k Hk Hk'. apply list_elem_of_singleton in Hk' as ->. done. }
      split; [apply elem_of_app; right; constructor|].
      split.
      { intros c. rewrite elem_of_app, list_elem_of_singleton. tauto. }
      split; [intros c; apply score_of_snoc|apply sum_values_snoc]. }
  split; [by rewrite bump_keys|].
  split.
  { intros c. rewrite bump_keys, Hkeys', Hkeys. split.
    - intros [(cf' & Hcf' & Hc)| ->].
      + exists cf'. split; [apply elem_of_app; by left|exact Hc].
      + exists cf. split; [apply elem_of_app; right; constructor|reflexivity].
    - intros (cf' & Hcf' & Hc). apply elem_of_app in Hcf' as [Hcf'|Hcf'].
      + left. by exists cf'.
      + apply list_elem_of_singleton in Hcf' as ->. by right. }
  split.
  { intros c. rewrite files_of_snoc.
    destruct (decide (category cf = c)) as [<-|Hne].
    - by rewrite score_of_bump_same, Hs', Hscore.
    - rewrite score_of_bump_other, Hs', Hscore by done. lia. }
  split.
  { rewrite bump_sum, Hsum', Hsum, length_app by done. reflexivity. }
  rewrite filter_app, filter_cons, <- Hlow.
  destruct (low cf) eqn:E.
  - by rewrite decide_True.
  - rewrite decide_False by done. by rewrite app_nil_r.
Qed.

End account.

(** X24. The statistics the test draws from a list of classified files
    cannot fail its checks: the counts of the distribution add up to the
    number of files; the distribution has one entry per category met, which
    counts the files of that category; and the low-confidence files are the
    files whose confidence is below 0.5, in their order. *)
Theorem statistics_add_up
    (ClassifiedFile : Type) (category : ClassifiedFile -> string)
    (confidence : ClassifiedFile -> Q)
    (classified_files : list ClassifiedFile) :
  let r := statistics ClassifiedFile category confidence classified_files in
  let total_files := fst (fst r) in
  let classification_distribution := snd (fst r) in
  let low_confidence_files := snd r in
  total_files = length classified_files
  /\ sum_values classification_distribution = total_files
  /\ NoDup (fst <$> classification_distribution)
  /\ (forall c,
        c ∈ fst <$> classification_distribution
        <-> exists cf, cf ∈ classified_files /\ category cf = c)
  /\ (forall c,
        score_of classification_distribution c
        = files_of category c classified_files)
  /\ low_confidence_files
     = filter (fun cf => low_confidence ClassifiedFile confidence cf = true)
              classified_files
  /\ Forall (fun cf => (confidence cf < 1 # 2)%Q) low_confidence_files.
Proof.
  destruct (loop_counts_files ClassifiedFile category confidence
              classified_files) as (Hnd & Hkeys & Hscore & Hsum & Hlow).
  unfold statistics. simpl.
  repeat split; try done.
  - by apply Hkeys.
  - by apply Hkeys.
  - rewrite Hlow. apply Forall_forall. intros cf Hcf.
    apply list_elem_of_filter in Hcf as [Hl _].
    unfold low_confidence in Hl. apply negb_true_iff in Hl.
    apply Qnot_le_lt. intros Hle. apply Qle_bool_iff in Hle. congruence.
Qed.

End StatisticsMore.
